(** * FormBuilder: the field/response model and its render cycle

    A shallow embedding of the [FormBuilder] class (TypeScript source and the
    shipped [script.js]) together with the properties of its label check,
    field list, submission, validation and response table.

    Modelling conventions.
    - JavaScript strings are [string]s of 8-bit characters; [trim] and
      [toLowerCase] are the ASCII restrictions of the built-ins.
    - A [Record<string, any>] holding answers is a [gmap string Answer],
      its own properties; an answer is a string or an array of strings.
      Assignments and reads follow the prototype of a plain object.
    - [localStorage] is a [gmap] from keys to stored values; a stored value
      is the collection that [JSON.stringify] serialised, so that
      [JSON.parse] of it gives the collection back.
    - The document is the part the class reads and writes: the input
      controls inside [#form] (in document order), the content of
      [#response-review], the three builder inputs and the error region.
      Field ids have the shape [<type>-<timestamp>] and so never name one of
      the page's static elements; an id query is resolved among the
      preview's controls.
    - A handler either completes or stops with a [TypeError] (a property
      read on [null]); both completions carry the state reached.
    - A page is followed through its events: the constructor's load, the
      clicks the class listens to, the user's input and reloads; an
      uncaught [TypeError] ends one handler and the page goes on from the
      state reached. *)

From Stdlib Require Import Ascii String NArith.
From stdpp Require Import base option list strings gmap fin_maps pretty.

Local Open Scope string_scope.

(** ** Strings *)

Module Js.

(** [c.toLowerCase()] on one ASCII character. *)
Definition lower_char (c : ascii) : ascii :=
  let n := N_of_ascii c in
  if ((65 <=? n) && (n <=? 90))%N then ascii_of_N (n + 32) else c.

(** [s.toLowerCase()] *)
Fixpoint toLowerCase (s : string) : string :=
  match s with
  | EmptyString => EmptyString
  | String c s' => String (lower_char c) (toLowerCase s')
  end.

(** [s.trimStart()] *)
Fixpoint trimStart (s : string) : string :=
  match s with
  | EmptyString => EmptyString
  | String c s' => if Ascii.is_space c then trimStart s' else s
  end.

(** [s.trim()]: white space removed at both ends. *)
Definition trim (s : string) : string :=
  String.rev (trimStart (String.rev (trimStart s))).

(** [s.split(sep)] for a one-character separator; [cur] is the part being
    read, reversed. *)
Fixpoint split_go (sep : ascii) (cur : string) (s : string) : list string :=
  match s with
  | EmptyString => [String.rev cur]
  | String c s' =>
      if Ascii.eqb c sep
      then String.rev cur :: split_go sep EmptyString s'
      else split_go sep (String c cur) s'
  end.

Definition split (sep : ascii) (s : string) : list string :=
  split_go sep EmptyString s.

(** [l.join(sep)] *)
Fixpoint join (sep : string) (l : list string) : string :=
  match l with
  | [] => ""
  | [x] => x
  | x :: l' => x +:+ sep +:+ join sep l'
  end.

(** Truthiness of a string: the empty string is falsy. *)
Definition truthy (s : string) : bool :=
  match s with EmptyString => false | _ => true end.

(** [o[k] = v] on an object created as [{}], as the own properties it
    has afterwards. Under ['__proto__'] the setter inherited from
    [Object.prototype] runs instead: no own property is created (a string
    is ignored; an array becomes the object's prototype, which is no own
    property either). *)
Definition assign {V} (k : string) (v : V) (o : gmap string V)
    : gmap string V :=
  if bool_decide (k = "__proto__") then o else <[k := v]> o.

(** The function-valued properties of [Object.prototype]. *)
Definition Object_prototype_functions : list string :=
  ["constructor"; "__defineGetter__"; "__defineSetter__"; "hasOwnProperty";
   "__lookupGetter__"; "__lookupSetter__"; "isPrototypeOf";
   "propertyIsEnumerable"; "toString"; "valueOf"; "toLocaleString"].

(** [String(f)] for a built-in function, as V8 prints it (the white space
    inside is the engine's choice). *)
Definition native_function (name : string) : string :=
  "function " +:+ name +:+ "() { [native code] }".

(** [String(o[k])] when [o] has no own property [k] and its prototype is
    [Object.prototype], as for [{}] and for what [JSON.parse] returns:
    [None] when [o[k]] is [undefined]. *)
Definition inherited_text (k : string) : option string :=
  if bool_decide (k = "__proto__") then Some "[object Object]"
  else if bool_decide (k = "constructor") then Some (native_function "Object")
  else if bool_decide (k ∈ Object_prototype_functions)
  then Some (native_function k)
  else None.


End Js.

(** ** Data model *)

(** [interface FormField]. An absent [options] is [None]; an absent
    [required] reads as falsy, the add path always stores a boolean. *)
Record FormField := mkField {
  id : string;
  type : string;
  label : string;
  options : option (list string);
  required : bool
}.

(** A value stored under a label in [FormResponse.responses]. *)
Inductive Answer :=
| AStr (s : string)
| AArr (l : list string).

(** [interface FormResponse]; [responses] holds the own properties of the
    answers object, which is what [JSON.stringify] writes. *)
Record FormResponse := mkResponse {
  formId : string;
  responses : gmap string Answer
}.

(** What [JSON.stringify] wrote under a [localStorage] key. *)
Inductive Stored :=
| SFields (l : list FormField)
| SResponses (l : list FormResponse).

(** An [<input>] of the preview. [el_error] is membership of ['error'] in
    its class list. *)
Record InputEl := mkInput {
  el_type : string;
  el_id : option string;
  el_name : option string;
  el_value : string;
  el_checked : bool;
  el_error : bool
}.

(** The [<table>] built by [renderResponses]: the header cells and the
    cells of each data row. *)
Record Table := mkTable {
  header : list string;
  rows : list (list string)
}.

(** The instance's properties, the store and the document. *)
Record State := mkState {
  formFields : list FormField;
  formResponses : list FormResponse;
  localStorage : gmap string Stored;
  form : list InputEl;
  response_review : option Table;
  field_label : string;
  field_type : string;
  field_options_input : string;
  error_message : string;
  error_color : string
}.

(** The two builds under [src/]: the TypeScript source, and [script.js],
    which guards the [classList.remove] calls of [validateForm] (and the
    clearing of the error region, which the page always has). *)
Inductive Build := TypeScript | ScriptJs.

#[global] Instance FormField_eq_dec : EqDecision FormField.
Proof. solve_decision. Defined.
#[global] Instance Answer_eq_dec : EqDecision Answer.
Proof. solve_decision. Defined.
#[global] Instance InputEl_eq_dec : EqDecision InputEl.
Proof. solve_decision. Defined.

(** ** Completions: a handler returns, or stops on a [TypeError] *)

Inductive Completion (A : Type) : Type :=
| Normal (a : A) (st : State)
| TypeError (st : State).
Arguments Normal {A} a st.
Arguments TypeError {A} st.

Definition M (A : Type) : Type := State → Completion A.

#[global] Instance M_ret : MRet M := λ A a st, Normal a st.
#[global] Instance M_bind : MBind M := λ A B k m st,
  match m st with
  | Normal a st' => k a st'
  | TypeError st' => TypeError st'
  end.

(** Read the state, or run a step that cannot throw. *)
Definition gets {A} (f : State → A) : M A := λ st, Normal (f st) st.
Definition modify (f : State → State) : M unit := λ st, Normal () (f st).

(** The state a completion ends in. *)
Definition final {A} (c : Completion A) : State :=
  match c with Normal _ st => st | TypeError st => st end.

(** [l.forEach(body)] where the callback also updates a local variable of
    the enclosing function, threaded here as [acc]. *)
Fixpoint forEach {A B} (body : B → A → M B) (acc : B) (l : list A) : M B :=
  match l with
  | [] => mret acc
  | x :: l' => acc' ← body acc x; forEach body acc' l'
  end.

(** ** Field updates of the state *)

Definition set_formFields (v : list FormField) (st : State) : State :=
  mkState v (formResponses st) (localStorage st) (form st)
    (response_review st) (field_label st) (field_type st)
    (field_options_input st) (error_message st) (error_color st).
Definition set_formResponses (v : list FormResponse) (st : State) : State :=
  mkState (formFields st) v (localStorage st) (form st)
    (response_review st) (field_label st) (field_type st)
    (field_options_input st) (error_message st) (error_color st).
Definition set_localStorage (v : gmap string Stored) (st : State) : State :=
  mkState (formFields st) (formResponses st) v (form st)
    (response_review st) (field_label st) (field_type st)
    (field_options_input st) (error_message st) (error_color st).
Definition set_form (v : list InputEl) (st : State) : State :=
  mkState (formFields st) (formResponses st) (localStorage st) v
    (response_review st) (field_label st) (field_type st)
    (field_options_input st) (error_message st) (error_color st).
Definition set_response_review (v : option Table) (st : State) : State :=
  mkState (formFields st) (formResponses st) (localStorage st) (form st)
    v (field_label st) (field_type st)
    (field_options_input st) (error_message st) (error_color st).
Definition set_field_label (v : string) (st : State) : State :=
  mkState (formFields st) (formResponses st) (localStorage st) (form st)
    (response_review st) v (field_type st)
    (field_options_input st) (error_message st) (error_color st).
Definition set_field_options_input (v : string) (st : State) : State :=
  mkState (formFields st) (formResponses st) (localStorage st) (form st)
    (response_review st) (field_label st) (field_type st)
    v (error_message st) (error_color st).
Definition set_error (msg color : string) (st : State) : State :=
  mkState (formFields st) (formResponses st) (localStorage st) (form st)
    (response_review st) (field_label st) (field_type st)
    (field_options_input st) msg color.

Definition set_label (l : string) (f : FormField) : FormField :=
  mkField (id f) (type f) l (options f) (required f).
Definition set_el_error (b : bool) (e : InputEl) : InputEl :=
  mkInput (el_type e) (el_id e) (el_name e) (el_value e) (el_checked e) b.

(** ** The document *)

(** The two selectors the class uses: [#<id>] and
    [input[name="<name>"]:checked]. *)
Inductive Selector :=
| ById (i : string)
| CheckedByName (n : string).

Definition checkable (t : string) : bool :=
  bool_decide (t = "radio") || bool_decide (t = "checkbox").

Definition selects (sel : Selector) (e : InputEl) : bool :=
  match sel with
  | ById i => bool_decide (el_id e = Some i)
  | CheckedByName n =>
      bool_decide (el_name e = Some n) && el_checked e && checkable (el_type e)
  end.

(** [document.querySelector(sel)]: the first match in document order, as a
    position among the controls, or [None] for [null]. *)
Definition querySelector (sel : Selector) : M (option nat) :=
  gets (λ st, fst <$> list_find (λ e, selects sel e = true) (form st)).

(** [document.querySelectorAll(sel)]: all matches, in document order. *)
Definition querySelectorAll (sel : Selector) : M (list InputEl) :=
  gets (λ st, filter (λ e, selects sel e = true) (form st)).

(** [input.value]; reading it on [null] throws. *)
Definition value_of (input : option nat) : M string := λ st,
  match input ≫= (λ n, form st !! n) with
  | Some e => Normal (el_value e) st
  | None => TypeError st
  end.

(** [input.classList.add('error')] and [input.classList.remove('error')];
    on [null] they throw. *)
Definition classList_set (b : bool) (input : option nat) : M unit := λ st,
  match input with
  | Some n => Normal () (set_form (alter (set_el_error b) n (form st)) st)
  | None => TypeError st
  end.
Definition classList_add := classList_set true.

(** The [else] branches of [validateForm]: the TypeScript source calls
    [remove] directly, [script.js] only [if (input && input.classList)]. *)
Definition classList_remove (b : Build) (input : option nat) : M unit :=
  match b, input with
  | ScriptJs, None => mret ()
  | _, _ => classList_set false input
  end.

(** ** The class [FormBuilder] *)

(** [isValidLabel(label)] *)
Definition isValidLabel (label0 : string) (st : State) : bool :=
  if negb (Js.truthy (Js.trim label0)) then false
  else
    let exists_ :=
      existsb (λ field,
        bool_decide (Js.toLowerCase (label field) = Js.toLowerCase label0))
        (formFields st) in
    negb exists_.

(** [saveForms()] *)
Definition saveForms : M unit :=
  modify (λ st,
    set_localStorage (<["forms" := SFields (formFields st)]> (localStorage st)) st).

(** The controls [renderForm] creates for one field: one text input
    carrying the field's id, or one radio/checkbox input per option, named
    after the field's id and carrying no id of its own. *)
Definition render_field (field : FormField) : list InputEl :=
  if bool_decide (type field = "text") then
    [mkInput "text" (Some (id field)) None "" false false]
  else if bool_decide (type field = "radio") then
    match options field with
    | Some opts =>
        (λ option, mkInput "radio" None (Some (id field)) option false false)
          <$> opts
    | None => []
    end
  else if bool_decide (type field = "checkbox") then
    match options field with
    | Some opts =>
        (λ option, mkInput "checkbox" None (Some (id field)) option false false)
          <$> opts
    | None => []
    end
  else [].

(** [renderForm()]: the container is emptied and rebuilt. *)
Definition renderForm : M unit :=
  modify (λ st, set_form (formFields st ≫= render_field) st).

(** [cell.textContent] for one answer: an array is joined with [", "], a
    missing answer ([undefined]) gives the empty text. *)
Definition cell_text (responseValue : option Answer) : string :=
  match responseValue with
  | Some (AArr l) => Js.join ", " l
  | Some (AStr s) => s
  | None => ""
  end.

(** The cell for [response.responses[k]]: the record's own answer under
    [k] if it has one; otherwise what it inherits under [k], for a record
    whose prototype is [Object.prototype]. A record submitted with a
    checkbox field labelled ['__proto__'] has the array of ticked values
    as its prototype until the page is reloaded, and until then inherits
    under further names, all of them among [Js.inheritable_name]; the
    properties below that speak of a blank cell exclude those names. *)
Definition response_cell (response : FormResponse) (k : string) : string :=
  match responses response !! k with
  | Some a => cell_text (Some a)
  | None => default (cell_text None) (Js.inherited_text k)
  end.

Definition render_row (fields : list FormField) (response : FormResponse)
    : list string :=
  formId response
    :: ((λ field, response_cell response (label field)) <$> fields).

Definition render_table (fields : list FormField)
    (resps : list FormResponse) : Table :=
  mkTable ("Form ID" :: (label <$> fields)) (render_row fields <$> resps).

(** [renderResponses()] *)
Definition renderResponses : M unit :=
  modify (λ st,
    let st := set_response_review None st in
    if bool_decide (0 < length (formResponses st))
       && negb (bool_decide (length (formFields st) = 0))
    then
      set_response_review
        (Some (render_table (formFields st) (formResponses st))) st
    else
      set_localStorage ∅ (set_formFields [] (set_formResponses [] st))).

(** [addField(field)] *)
Definition addField (field : FormField) : M unit :=
  modify (λ st, set_formFields (formFields st ++ [field]) st);;
  saveForms;;
  renderForm.

(** [editField(id)]; [answer] is what [prompt] returns when it is shown:
    the new string, or [None] for [null] (the prompt was cancelled). *)
Definition editField (i : string) (answer : option string) : M unit :=
  fields ← gets formFields;
  match list_find (λ field, id field = i) fields with
  | Some (n, field) =>
      match answer with
      | Some newLabel =>
          modify (set_formFields (<[n := set_label newLabel field]> fields));;
          saveForms;;
          renderForm;;
          renderResponses
      | None => mret ()
      end
  | None => mret ()
  end.

(** [deleteField(id)] *)
Definition deleteField (i : string) : M unit :=
  modify (λ st,
    set_formFields (filter (λ field, id field ≠ i) (formFields st)) st);;
  saveForms;;
  renderForm;;
  renderResponses.

(** The test [field.type === t && !document.querySelector(...:checked)]. *)
Definition group_unselected (t : string) (field : FormField) : M bool :=
  if bool_decide (type field = t) then
    sel ← querySelector (CheckedByName (id field));
    mret (bool_decide (sel = None))
  else mret false.

(** The callback of [validateForm]; [valid] is the enclosing local. *)
Definition validate_field (b : Build) (valid : bool) (field : FormField)
    : M bool :=
  input ← querySelector (ById (id field));
  if required field then
    c ← (if bool_decide (type field = "text")
         then v ← value_of input; mret (negb (Js.truthy v))
         else mret false);
    if c : bool then classList_add input;; mret false
    else
      c ← group_unselected "radio" field;
      if c : bool then classList_add input;; mret false
      else
        c ← group_unselected "checkbox" field;
        if c : bool then classList_add input;; mret false
        else classList_remove b input;; mret valid
  else classList_remove b input;; mret valid.

(** [validateForm()] *)
Definition validateForm (b : Build) : M bool :=
  fields ← gets formFields;
  forEach (validate_field b) true fields.

(** The callback of [submitForm]; [acc] is the local [responses]. *)
Definition submit_field (acc : gmap string Answer) (field : FormField)
    : M (gmap string Answer) :=
  input ← querySelector (ById (id field));
  if bool_decide (type field = "text") then
    v ← value_of input;
    mret (Js.assign (label field) (AStr v) acc)
  else if bool_decide (type field = "radio") then
    selectedRadio ← querySelector (CheckedByName (id field));
    match selectedRadio with
    | Some _ =>
        v ← value_of selectedRadio;
        mret (Js.assign (label field) (AStr v) acc)
    | None => mret acc
    end
  else if bool_decide (type field = "checkbox") then
    selectedCheckboxes ← querySelectorAll (CheckedByName (id field));
    mret (Js.assign (label field) (AArr (el_value <$> selectedCheckboxes)) acc)
  else mret acc.

(** [submitForm()]; [now] is the value of [Date.now()]. *)
Definition submitForm (now : N) : M unit :=
  fields ← gets formFields;
  resps ← forEach submit_field ∅ fields;
  let formResponse := mkResponse (pretty now) resps in
  modify (λ st, set_formResponses (formResponses st ++ [formResponse]) st);;
  modify (λ st,
    set_localStorage
      (<["formResponses" := SResponses (formResponses st)]> (localStorage st)) st);;
  renderResponses.

(** ** The click handlers of [attachEventListeners] *)

Definition invalid_label_message : string :=
  "Field label is invalid or already exists. Please choose a different label.".

(** Click on [#add-field]; [required] is the answer to [confirm], [now] the
    value of [Date.now()]. *)
Definition add_field_click (required0 : bool) (now : N) : M unit :=
  label0 ← gets field_label;
  type0 ← gets field_type;
  valid ← gets (isValidLabel label0);
  if negb valid then
    modify (set_error invalid_label_message "red")
  else
    optsInput ← gets field_options_input;
    let options0 :=
      if bool_decide (type0 = "radio") || bool_decide (type0 = "checkbox")
      then Some (Js.trim <$> Js.split "," optsInput)
      else None in
    let field :=
      mkField (type0 +:+ "-" +:+ pretty now) type0 label0 options0 required0 in
    addField field;;
    modify (set_field_label "");;
    modify (set_field_options_input "");;
    modify (λ st, set_error "" (error_color st) st).

(** Click on [#submit-form]. *)
Definition submit_form_click (b : Build) (now : N) : M unit :=
  valid ← validateForm b;
  if valid : bool then submitForm now else mret ().

(** ** Derived forms used in the statements *)

(** The three steps every mutation of the field list ends with. *)
Definition rerender_fields (st : State) : State :=
  set_form (formFields st ≫= render_field)
    (set_localStorage (<["forms" := SFields (formFields st)]> (localStorage st)) st).

(** The state [renderResponses] leaves, as a function. *)
Definition renderResponses_state (st : State) : State :=
  match formResponses st, formFields st with
  | _ :: _, _ :: _ =>
      set_response_review
        (Some (render_table (formFields st) (formResponses st))) st
  | _, _ =>
      set_localStorage ∅
        (set_formFields [] (set_formResponses [] (set_response_review None st)))
  end.

(** The spec's wording of the label rule: two labels match
    case-insensitively when their lower-cased forms agree, and a candidate
    is acceptable when its trimmed form is non-empty and no field's label
    matches it. *)
Definition eq_ignoring_case (a b : string) : Prop :=
  Js.toLowerCase a = Js.toLowerCase b.

Definition valid_label_spec (candidate : string) (fields : list FormField)
    : Prop :=
  Js.trim candidate ≠ ""
  ∧ ∀ field, field ∈ fields → ¬ eq_ignoring_case (label field) candidate.

(** The state [deleteField] leaves, before its last render pass. *)
Definition delete_state (i : string) (st : State) : State :=
  rerender_fields
    (set_formFields (filter (λ field, id field ≠ i) (formFields st)) st).

(** The state [editField] leaves, before its last render pass, when the
    field at position [n] receives [newLabel]. *)
Definition edit_state (n : nat) (field : FormField) (newLabel : string)
    (st : State) : State :=
  rerender_fields
    (set_formFields (<[n := set_label newLabel field]> (formFields st)) st).

(** ** What a surface offers to the queries *)

(** Some control of [dom] matches [sel]. *)
Definition has_input (sel : Selector) (dom : list InputEl) : Prop :=
  Exists (λ e, selects sel e = true) dom.

(** Some option of the field's group is checked. *)
Definition selected (field : FormField) (dom : list InputEl) : Prop :=
  has_input (CheckedByName (id field)) dom.

(** Every text field finds its input by id, as in a preview rendered from
    [fields]. *)
Definition text_inputs_present (fields : list FormField)
    (dom : list InputEl) : Prop :=
  Forall (λ field, type field = "text" → has_input (ById (id field)) dom)
    fields.

(** [document.querySelector(sel)] as an element. *)
Definition first_match (sel : Selector) (dom : list InputEl)
    : option InputEl :=
  snd <$> list_find (λ e, selects sel e = true) dom.

(** The entry one field contributes to the answers of a submission. *)
Definition answer_of (dom : list InputEl) (field : FormField)
    : option Answer :=
  if bool_decide (type field = "text") then
    (λ e, AStr (el_value e)) <$> first_match (ById (id field)) dom
  else if bool_decide (type field = "radio") then
    (λ e, AStr (el_value e)) <$> first_match (CheckedByName (id field)) dom
  else if bool_decide (type field = "checkbox") then
    Some (AArr (el_value <$>
            filter (λ e, selects (CheckedByName (id field)) e = true) dom))
  else None.

Definition record_answer (dom : list InputEl) (acc : gmap string Answer)
    (field : FormField) : gmap string Answer :=
  match answer_of dom field with
  | Some a => Js.assign (label field) a acc
  | None => acc
  end.


(** The spec's rule for one field: a required text field passes when its
    value is non-empty, a required radio or checkbox field when an option
    of its group is selected, any other field always. *)
Definition field_passes (dom : list InputEl) (field : FormField) : bool :=
  negb (required field)
  || (if bool_decide (type field = "text") then
        match first_match (ById (id field)) dom with
        | Some e => Js.truthy (el_value e)
        | None => false
        end
      else if bool_decide (type field = "radio")
              || bool_decide (type field = "checkbox")
      then bool_decide (selected field dom)
      else true).

(** The controls with their error marks taken off. *)
Definition unmarked (dom : list InputEl) : list InputEl :=
  set_el_error false <$> dom.

(** [st'] differs from [st] at most in the error marks of the preview. *)
Definition marks_only (st st' : State) : Prop :=
  st' = set_form (form st') st ∧ unmarked (form st') = unmarked (form st).

(** A completion that changed error marks only and, when it returns,
    returns [v]. *)
Definition ends_with (v : bool) (st : State) (c : Completion bool) : Prop :=
  marks_only st (final c) ∧ ∀ v' st', c = Normal v' st' → v' = v.

(** ** Concrete sessions *)

Definition name_field : FormField := mkField "text-1" "text" "Name" None true.
Definition email_field : FormField := mkField "text-2" "text" "Email" None false.
Definition color_field : FormField :=
  mkField "radio-3" "radio" "Color" (Some ["Red"; "Blue"]) true.
Definition hobbies_field : FormField :=
  mkField "checkbox-4" "checkbox" "Hobbies" (Some ["Chess"; "Go"]) false.

(** The state after [fields] were added to an empty session, with the
    kind selector back on text. *)
Definition added (fields : list FormField) : State :=
  mkState fields [] (<["forms" := SFields fields]> ∅)
    (fields ≫= render_field) None "" "text" "" "" "".

(** A session showing [fields] with [resps] recorded, as the class leaves
    it: the store mirrors both collections, the preview is freshly
    rendered and the builder inputs are empty. *)
Definition session (fields : list FormField) (resps : list FormResponse)
    : State :=
  mkState fields resps
    (<["formResponses" := SResponses resps]>
       (<["forms" := SFields fields]> ∅))
    (fields ≫= render_field)
    (Some (render_table fields resps)) "" "text" "" "" "".

Definition alice : FormResponse :=
  mkResponse "7" (<["Email" := AStr "a@x"]> (<["Name" := AStr "Alice"]> ∅)).

(** A field was added and nothing has been submitted yet. *)
Definition st_one_field : State := added [name_field].

Definition st_two_fields_one_response : State :=
  session [name_field; email_field] [alice].

(** The preview of name, colour and hobbies after the user typed "Alice",
    chose "Blue" and ticked "Go". *)
Definition st_filled : State :=
  set_form
    [mkInput "text" (Some "text-1") None "Alice" false false;
     mkInput "radio" None (Some "radio-3") "Red" false false;
     mkInput "radio" None (Some "radio-3") "Blue" true false;
     mkInput "checkbox" None (Some "checkbox-4") "Chess" false false;
     mkInput "checkbox" None (Some "checkbox-4") "Go" true false]
    (added [name_field; color_field; hobbies_field]).

(** The builder is about to add a radio field "Color" with the options
    input left empty. *)
Definition st_adding_radio : State :=
  mkState [name_field] [] (<["forms" := SFields [name_field]]> ∅)
    ([name_field] ≫= render_field) None "Color" "radio" "" "" "".

(** The builder is about to add a second field labelled "NAME". *)
Definition st_adding_duplicate : State :=
  mkState [name_field] [] (<["forms" := SFields [name_field]]> ∅)
    ([name_field] ≫= render_field) None "NAME" "text" "" "" "".

(** ** Loading, the form list and the kind selector *)

(** [JSON.parse(localStorage.getItem('forms') || '[]')]: an absent key
    reads as the empty array. A stored response list under this key lies
    outside the model of [JSON] values as typed collections, unless it is
    empty (both empty collections serialise to the same text). *)
Definition parse_forms (item : option Stored) : option (list FormField) :=
  match item with
  | None => Some []
  | Some (SFields l) => Some l
  | Some (SResponses []) => Some []
  | Some (SResponses (_ :: _)) => None
  end.

(** [JSON.parse(localStorage.getItem('formResponses') || '[]')] *)
Definition parse_formResponses (item : option Stored)
    : option (list FormResponse) :=
  match item with
  | None => Some []
  | Some (SResponses l) => Some l
  | Some (SFields []) => Some []
  | Some (SFields (_ :: _)) => None
  end.

(** [renderForms()]: the lines it puts into [#form-list]. *)
Definition renderForms (fields : list FormField) : list string :=
  (λ field, "Form with " +:+ label field) <$> fields.

(** The body of [loadForms()] after the two parses. It returns the content
    of [#form-list], the one part of the document it writes that [State]
    has no place for. *)
Definition loadForms_with (forms : list FormField)
    (resps : list FormResponse) : M (list string) :=
  modify (set_formFields (match forms with [] => [] | _ => forms end));;
  modify (set_formResponses (match resps with [] => [] | _ => resps end));;
  renderForm;;
  formList ← gets (λ st, renderForms (formFields st));
  renderResponses;;
  mret formList.

(** [loadForms()], where the store parses in the model. *)
Definition loadForms (st : State) : option (Completion (list string)) :=
  forms ← parse_forms (localStorage st !! "forms");
  resps ← parse_formResponses (localStorage st !! "formResponses");
  Some (loadForms_with forms resps st).

(** The instance a page load starts from: the property initialisers of
    the class run on the document [page], over the browser's [store]. *)
Definition boot (page : State) (store : gmap string Stored) : State :=
  set_localStorage store (set_formResponses [] (set_formFields [] page)).

(** The change handler of [#field-type]: whether [#field-options] carries
    the class ['hidden'] afterwards. *)
Definition field_type_change (value : string) : bool :=
  if bool_decide (value = "radio") || bool_decide (value = "checkbox")
  then false else true.

Definition set_field_type (v : string) (st : State) : State :=
  mkState (formFields st) (formResponses st) (localStorage st) (form st)
    (response_review st) (field_label st) v
    (field_options_input st) (error_message st) (error_color st).

(** ** The event loop *)

(** What the user can change in a control of the preview: its value and
    whether it is checked. *)
Definition same_control (e e' : InputEl) : Prop :=
  el_type e' = el_type e ∧ el_id e' = el_id e ∧ el_name e' = el_name e
  ∧ el_error e' = el_error e.

Definition same_controls (dom dom' : list InputEl) : Prop :=
  Forall2 same_control dom dom'.

#[global] Instance same_controls_dec : RelDecision same_controls.
Proof. unfold same_controls, same_control. intros dom dom'. apply _. Defined.

(** The events of a page: the clicks the class listens to (the edit and
    delete buttons call [editField] and [deleteField] with a field id; any
    id is allowed here), the user's input in the builder and in the
    preview, and a reload of the page into the document [page]. *)
Inductive Event :=
| ClickAddField (required0 : bool) (now : N)
| ClickSubmit (now : N)
| ClickEdit (i : string) (answer : option string)
| ClickDelete (i : string)
| InputLabel (s : string)
| SelectType (s : string)
| InputOptions (s : string)
| InputPreview (dom : list InputEl)
| Reload (page : State).

(** The state after an event; an uncaught [TypeError] ends the handler and
    leaves the state reached. [None]: the event cannot happen in [st]. *)
Definition handle (b : Build) (ev : Event) (st : State) : option State :=
  match ev with
  | ClickAddField required0 now => Some (final (add_field_click required0 now st))
  | ClickSubmit now => Some (final (submit_form_click b now st))
  | ClickEdit i answer => Some (final (editField i answer st))
  | ClickDelete i => Some (final (deleteField i st))
  | InputLabel s => Some (set_field_label s st)
  | SelectType s => Some (set_field_type s st)
  | InputOptions s => Some (set_field_options_input s st)
  | InputPreview dom =>
      if bool_decide (same_controls (form st) dom)
      then Some (set_form dom st) else None
  | Reload page => final <$> loadForms (boot page (localStorage st))
  end.

(** The sessions a page can be in: after the constructor ran on some
    document and store, and after any further event. *)
Inductive reachable (b : Build) : State → Prop :=
| reachable_boot page store c :
    loadForms (boot page store) = Some c → reachable b (final c)
| reachable_step st ev st' :
    reachable b st → handle b ev st = Some st' → reachable b st'.

(** ** Session invariants *)

Definition forms_synced (st : State) : Prop :=
  localStorage st !! "forms" = Some (SFields (formFields st))
  ∨ (localStorage st !! "forms" = None ∧ formFields st = []).

Definition responses_synced (st : State) : Prop :=
  localStorage st !! "formResponses" = Some (SResponses (formResponses st))
  ∨ (localStorage st !! "formResponses" = None ∧ formResponses st = []).

Record session_ok (st : State) : Prop := mk_session_ok {
  ok_fields : formResponses st ≠ [] → formFields st ≠ [];
  ok_forms : forms_synced st;
  ok_responses : responses_synced st;
  ok_inputs : text_inputs_present (formFields st) (form st);
  ok_table : is_Some (response_review st) ↔ formResponses st ≠ []
}.

(** The record [submitForm] builds, and the state it reaches before its
    render pass. *)
Definition submit_record (now : N) (st : State) : FormResponse :=
  mkResponse (pretty now) (foldl (record_answer (form st)) ∅ (formFields st)).

Definition submit_state (now : N) (st : State) : State :=
  let resps := (formResponses st ++ [submit_record now st])%list in
  set_localStorage
    (<["formResponses" := SResponses resps]> (localStorage st))
    (set_formResponses resps st).

(** The add path's field and the state it reaches. *)
Definition new_field (required0 : bool) (now : N) (st : State) : FormField :=
  mkField (field_type st +:+ "-" +:+ pretty now) (field_type st)
    (field_label st)
    (if bool_decide (field_type st = "radio")
        || bool_decide (field_type st = "checkbox")
     then Some (Js.trim <$> Js.split "," (field_options_input st))
     else None)
    required0.

(** The label rule over a whole field list: no label is blank and no two
    labels agree up to case. *)
Definition labels_valid (fields : list FormField) : Prop :=
  Forall (λ field, Js.trim (label field) ≠ "") fields
  ∧ NoDup ((λ field, Js.toLowerCase (label field)) <$> fields).

(** When [validate_field] stops with a [TypeError]: the field's id names no
    control and the callback reaches a property read on it. *)
Definition field_throws (b : Build) (dom : list InputEl) (field : FormField)
    : bool :=
  bool_decide (¬ has_input (ById (id field)) dom)
  && match b with
     | TypeScript => true
     | ScriptJs =>
         required field
         && (bool_decide (type field = "text")
             || ((bool_decide (type field = "radio")
                  || bool_decide (type field = "checkbox"))
                 && bool_decide (¬ selected field dom)))
     end.

(** A control as [renderForm] leaves it: unchecked, unmarked, and empty if
    it is a text input. *)
Definition pristine (e : InputEl) : Prop :=
  el_checked e = false ∧ el_error e = false
  ∧ (el_type e = "text" → el_value e = "").

(** Whether a completion is a [TypeError]. *)
Definition is_TypeError {A} (c : Completion A) : bool :=
  match c with Normal _ _ => false | TypeError _ => true end.

(** [dom] is the preview [renderForm] builds for [fields], whatever the
    user has entered in it and whatever is marked. *)
Definition shows (fields : list FormField) (dom : list InputEl) : Prop :=
  Forall2 (λ e e', el_type e' = el_type e ∧ el_id e' = el_id e
                   ∧ el_name e' = el_name e)
    (fields ≫= render_field) dom.

(** The state a successful add leaves. *)
Definition add_state (required0 : bool) (now : N) (st : State) : State :=
  let st1 :=
    rerender_fields
      (set_formFields (formFields st ++ [new_field required0 now st]) st) in
  set_error "" (error_color st1)
    (set_field_options_input "" (set_field_label "" st1)).

(** The state [loadForms] reaches before its render pass of the table. *)
Definition load_state (forms : list FormField) (resps : list FormResponse)
    (st : State) : State :=
  set_form (forms ≫= render_field)
    (set_formResponses resps (set_formFields forms st)).

(** A document as the page delivers it, and a store left by an earlier
    visit in which one response was recorded. *)
Definition blank_page : State := mkState [] [] ∅ [] None "" "text" "" "" "".

Definition stored_session : gmap string Stored :=
  <["formResponses" := SResponses [alice]]>
    (<["forms" := SFields [name_field]]> ∅).

(** The preview of the name field after the user typed "Alice". *)
Definition st_name_typed : State :=
  set_form [mkInput "text" (Some "text-1") None "Alice" false false]
    (added [name_field]).

(** The state after the control [input], if there is one, got its error
    mark set to [m]. *)
Definition mark_state (m : bool) (input : option nat) (st : State) : State :=
  match input with
  | Some n => set_form (alter (set_el_error m) n (form st)) st
  | None => st
  end.

(** A completion that, when it returns, has done exactly that. *)
Definition marks_as (m : bool) (input : option nat) (st : State)
    (c : Completion bool) : Prop :=
  ∀ v st', c = Normal v st' → st' = mark_state m input st.

(** The same preview with both hobbies ticked. *)
Definition st_both_ticked : State :=
  set_form
    [mkInput "text" (Some "text-1") None "Alice" false false;
     mkInput "radio" None (Some "radio-3") "Red" false false;
     mkInput "radio" None (Some "radio-3") "Blue" true false;
     mkInput "checkbox" None (Some "checkbox-4") "Chess" true false;
     mkInput "checkbox" None (Some "checkbox-4") "Go" true false]
    (added [name_field; color_field; hobbies_field]).

(** * Properties *)

(** ** Running the monad *)

Lemma bind_Normal {A B} (m : M A) (k : A → M B) st a st' :
  m st = Normal a st' → (m ≫= k) st = k a st'.
Proof. intros H. unfold mbind, M_bind. by rewrite H. Qed.

Lemma bind_TypeError {A B} (m : M A) (k : A → M B) st st' :
  m st = TypeError st' → (m ≫= k) st = TypeError st'.
Proof. intros H. unfold mbind, M_bind. by rewrite H. Qed.

Lemma bind_modify {B} (f : State → State) (k : unit → M B) st :
  (modify f ≫= k) st = k () (f st).
Proof. reflexivity. Qed.

Lemma bind_gets {A B} (f : State → A) (k : A → M B) st :
  (gets f ≫= k) st = k (f st) st.
Proof. reflexivity. Qed.

Lemma save_render_eq (k : M unit) st :
  (saveForms;; renderForm;; k) st = k (rerender_fields st).
Proof. reflexivity. Qed.

Lemma renderResponses_eq st :
  renderResponses st = Normal () (renderResponses_state st).
Proof.
  unfold renderResponses, renderResponses_state, modify.
  destruct st as [fs rs ls fm rr fl ft fo em ec]; simpl.
  destruct rs as [|r rs], fs as [|f fs]; reflexivity.
Qed.

(** ** The render pass of the response table (C1) *)

(** C1. When the field collection or the response collection is empty,
    [renderResponses] leaves both collections empty and the whole store
    erased; when both are non-empty it changes none of the three. *)
Theorem renderResponses_teardown (st : State) :
  (formFields st = [] ∨ formResponses st = [] →
   ∃ st', renderResponses st = Normal () st'
     ∧ formFields st' = [] ∧ formResponses st' = []
     ∧ localStorage st' = ∅
     ∧ localStorage st' !! "forms" = None
     ∧ localStorage st' !! "formResponses" = None
     ∧ response_review st' = None)
  ∧ (formFields st ≠ [] → formResponses st ≠ [] →
     ∃ st', renderResponses st = Normal () st'
       ∧ formFields st' = formFields st
       ∧ formResponses st' = formResponses st
       ∧ localStorage st' = localStorage st).
Proof.
  split.
  - intros Hempty. exists (renderResponses_state st).
    split; [apply renderResponses_eq|].
    unfold renderResponses_state.
    destruct (formResponses st) as [|r rs] eqn:Hr,
             (formFields st) as [|f fs] eqn:Hf;
      try (by destruct Hempty); simpl; by rewrite ?lookup_empty.
  - intros Hf Hr. exists (renderResponses_state st).
    split; [apply renderResponses_eq|].
    unfold renderResponses_state.
    destruct (formResponses st) as [|r rs] eqn:Er,
             (formFields st) as [|f fs] eqn:Ef; done.
Qed.

(** ** The label check (C7) *)

Lemma truthy_false s : Js.truthy s = false ↔ s = "".
Proof. destruct s; simpl; split; congruence. Qed.

Lemma label_exists_iff candidate fields :
  existsb (λ field,
    bool_decide (Js.toLowerCase (label field) = Js.toLowerCase candidate))
    fields = true
  ↔ ∃ field, field ∈ fields ∧ eq_ignoring_case (label field) candidate.
Proof.
  rewrite existsb_exists. unfold eq_ignoring_case.
  split; intros (f & Hin & Heq); exists f.
  - apply list_elem_of_In in Hin. by apply bool_decide_eq_true in Heq.
  - split; [by apply list_elem_of_In | by apply bool_decide_eq_true].
Qed.

Lemma isValidLabel_true_iff candidate st :
  isValidLabel candidate st = true
  ↔ valid_label_spec candidate (formFields st).
Proof.
  unfold isValidLabel, valid_label_spec.
  destruct (Js.truthy (Js.trim candidate)) eqn:Ht; simpl.
  - rewrite negb_true_iff, <- not_true_iff_false, label_exists_iff.
    split.
    + intros Hno. split.
      * intros Hs. apply truthy_false in Hs. congruence.
      * intros f Hin Heq. apply Hno. eauto.
    + intros [_ Hno] (f & Hin & Heq). by apply (Hno f).
  - apply truthy_false in Ht. split; [done | by intros [? _]].
Qed.

(** C7. [isValidLabel] answers true exactly when the trimmed candidate is
    non-empty and no field's label equals the candidate up to case; so it
    answers false for the empty string, for two spaces, and for a
    candidate matching an existing label. *)
Theorem isValidLabel_spec (candidate : string) (st : State) :
  (isValidLabel candidate st = true
     ↔ valid_label_spec candidate (formFields st))
  ∧ isValidLabel "" st = false
  ∧ isValidLabel "  " st = false
  ∧ (∀ field, field ∈ formFields st →
       eq_ignoring_case (label field) candidate →
       isValidLabel candidate st = false).
Proof.
  split; [apply isValidLabel_true_iff|]. split; [done|]. split; [done|].
  intros f Hin Heq. apply not_true_iff_false. intros Hv.
  apply isValidLabel_true_iff in Hv as [_ Hno]. by apply (Hno f).
Qed.

(** ** Rejected additions (C8) and the options of an added field (C10) *)

Lemma isValidLabel_false candidate st :
  Js.trim candidate = ""
  ∨ (∃ field, field ∈ formFields st
       ∧ eq_ignoring_case (label field) candidate) →
  isValidLabel candidate st = false.
Proof.
  intros H. apply not_true_iff_false. intros Hv.
  apply isValidLabel_true_iff in Hv as [Hne Hno].
  destruct H as [He | (f & Hin & Heq)]; [done | by apply (Hno f)].
Qed.

(** C8. An add attempt whose label is empty after trimming, or matches an
    existing label up to case, completes by showing the error message; the
    fields, the responses, the store and the preview are left as they
    were. *)
Theorem add_field_click_rejects (required0 : bool) (now : N) (st : State) :
  Js.trim (field_label st) = ""
  ∨ (∃ field, field ∈ formFields st
       ∧ eq_ignoring_case (label field) (field_label st)) →
  ∃ st', add_field_click required0 now st = Normal () st'
    ∧ error_message st' = invalid_label_message
    ∧ error_color st' = "red"
    ∧ formFields st' = formFields st
    ∧ formResponses st' = formResponses st
    ∧ localStorage st' = localStorage st
    ∧ form st' = form st
    ∧ response_review st' = response_review st.
Proof.
  intros H. apply isValidLabel_false in H.
  exists (set_error invalid_label_message "red" st).
  split; [|done].
  unfold add_field_click. rewrite !bind_gets, H. reflexivity.
Qed.

Lemma split_go_nonempty sep cur s : Js.split_go sep cur s ≠ [].
Proof.
  revert cur. induction s as [|c s IH]; intros cur; simpl; [done|].
  destruct (Ascii.eqb c sep); [done | apply IH].
Qed.

(** C10. A successful add of a radio or checkbox field appends a field
    whose options are the comma-separated parts of the options input,
    each trimmed; that sequence is never empty, and for an empty input it
    is the single empty string. *)
Theorem add_field_click_options (required0 : bool) (now : N) (st : State) :
  isValidLabel (field_label st) st = true →
  field_type st = "radio" ∨ field_type st = "checkbox" →
  ∃ (st' : State) (field : FormField) (opts : list string),
    add_field_click required0 now st = Normal () st'
    ∧ formFields st' = (formFields st ++ [field])%list
    ∧ type field = field_type st
    ∧ label field = field_label st
    ∧ options field = Some opts
    ∧ opts = Js.trim <$> Js.split "," (field_options_input st)
    ∧ opts ≠ []
    ∧ (field_options_input st = "" → opts = [""]).
Proof.
  intros Hv Ht.
  unfold add_field_click. rewrite !bind_gets, Hv. cbn [negb].
  rewrite bind_gets.
  assert (Hb : bool_decide (field_type st = "radio")
               || bool_decide (field_type st = "checkbox") = true).
  { destruct Ht as [-> | ->]; reflexivity. }
  rewrite Hb.
  eexists _, _, _. split; [reflexivity|]. simpl.
  repeat split.
  - unfold Js.split. intros Hm. apply fmap_nil_inv in Hm.
    by apply split_go_nonempty in Hm.
  - by intros ->.
Qed.

(** ** Deleting a field (C9) *)

Lemma deleteField_eq i st :
  deleteField i st = Normal () (renderResponses_state (delete_state i st)).
Proof. unfold deleteField. rewrite bind_modify, save_render_eq.
       apply renderResponses_eq. Qed.

Lemma renderResponses_state_keep st :
  formFields st ≠ [] → formResponses st ≠ [] →
  renderResponses_state st
  = set_response_review
      (Some (render_table (formFields st) (formResponses st))) st.
Proof.
  intros Hf Hr. unfold renderResponses_state.
  by destruct (formResponses st), (formFields st).
Qed.

Lemma renderResponses_state_reset st :
  formFields st = [] ∨ formResponses st = [] →
  renderResponses_state st
  = set_localStorage ∅
      (set_formFields [] (set_formResponses [] (set_response_review None st))).
Proof.
  intros H. unfold renderResponses_state.
  destruct (formResponses st), (formFields st); try done; by destruct H.
Qed.

(** C9. After [deleteField(id)] no field has that id, and the fields that
    remain are a subsequence of the original list, in its order: the
    fields with another id when responses exist, and none at all when the
    response collection is empty (the render pass then resets). *)
Theorem deleteField_removes (i : string) (st : State) :
  ∃ st', deleteField i st = Normal () st'
    ∧ (∀ field, field ∈ formFields st' → id field ≠ i)
    ∧ sublist (formFields st') (formFields st)
    ∧ (formResponses st ≠ [] →
       formFields st' = filter (λ field, id field ≠ i) (formFields st))
    ∧ (formResponses st = [] → formFields st' = []).
Proof.
  exists (renderResponses_state (delete_state i st)).
  split; [apply deleteField_eq|].
  set (kept := filter (λ field, id field ≠ i) (formFields st)).
  assert (Hkept : formFields (delete_state i st) = kept) by done.
  assert (Hresp : formResponses (delete_state i st) = formResponses st) by done.
  destruct (decide (kept = [])) as [Hk | Hk];
    [|destruct (decide (formResponses st = [])) as [Hr | Hr]].
  - rewrite renderResponses_state_reset by (left; congruence). simpl.
    repeat split; [by intros f ?%elem_of_nil | apply sublist_nil_l | done..].
  - rewrite renderResponses_state_reset by (right; congruence). simpl.
    repeat split; [by intros f ?%elem_of_nil | apply sublist_nil_l | done..].
  - rewrite renderResponses_state_keep by congruence. simpl.
    change (formFields (delete_state i st)) with kept.
    repeat split; [|apply sublist_filter|done..].
    intros f Hin. by apply list_elem_of_filter in Hin as [? _].
Qed.

(** ** Editing a field (C3, C4, C5) *)

Lemma editField_cancel i st : editField i None st = Normal () st.
Proof.
  unfold editField. rewrite bind_gets.
  by destruct (list_find _ _) as [[n f]|].
Qed.

Lemma editField_found i newLabel n field st :
  list_find (λ f, id f = i) (formFields st) = Some (n, field) →
  editField i (Some newLabel) st
  = Normal () (renderResponses_state (edit_state n field newLabel st)).
Proof.
  intros Hfind. unfold editField. rewrite bind_gets, Hfind.
  rewrite bind_modify, save_render_eq. apply renderResponses_eq.
Qed.

Lemma editField_unknown i answer st :
  (∀ field, field ∈ formFields st → id field ≠ i) →
  editField i answer st = Normal () st.
Proof.
  intros Hno. unfold editField. rewrite bind_gets.
  destruct (list_find _ _) as [[n f]|] eqn:Hfind; [|done].
  apply list_find_Some in Hfind as (Hn & Hid & _).
  apply list_elem_of_lookup_2 in Hn. by apply Hno in Hn.
Qed.

(** C3, at the failing input. A field labelled "Name" with one response
    recorded; the prompt is answered with the empty string. [editField]
    stores it: the field's label is now empty. *)
Theorem editField_accepts_empty_label :
  ∃ st', editField "text-1" (Some "") (session [name_field] [alice])
         = Normal () st'
    ∧ label <$> formFields st' = [""]
    ∧ (∃ t, response_review st' = Some t ∧ header t = ["Form ID"; ""]).
Proof. eexists. split; [vm_compute; reflexivity|]. vm_compute. eauto. Qed.

Lemma filter_unknown_id i (fields : list FormField) :
  (∀ field, field ∈ fields → id field ≠ i) →
  filter (λ field, id field ≠ i) fields = fields.
Proof.
  induction fields as [|f fs IH]; intros Hno; [done|].
  rewrite filter_cons_True by (apply Hno; left).
  f_equal. apply IH. intros g Hg. apply Hno. by right.
Qed.

(** C4, as amended. For an id no field has, [editField] leaves the whole
    state as it is, whatever the prompt would answer. [deleteField]
    completes too; when fields and responses are both non-empty it keeps
    both collections and rewrites the stored field list with the same
    fields (a store that mirrors the fields is unchanged), and when one of
    them is empty its render pass clears fields, responses and store. *)
Theorem unknown_id_edit_delete (i : string) (st : State) :
  (∀ field, field ∈ formFields st → id field ≠ i) →
  (∀ answer, editField i answer st = Normal () st)
  ∧ ∃ st', deleteField i st = Normal () st'
      ∧ (formFields st ≠ [] → formResponses st ≠ [] →
         formFields st' = formFields st
         ∧ formResponses st' = formResponses st
         ∧ localStorage st'
           = <["forms" := SFields (formFields st)]> (localStorage st)
         ∧ (localStorage st !! "forms" = Some (SFields (formFields st)) →
            localStorage st' = localStorage st))
      ∧ (formFields st = [] ∨ formResponses st = [] →
         formFields st' = [] ∧ formResponses st' = []
         ∧ localStorage st' = ∅).
Proof.
  intros Hno. split; [intros a; by apply editField_unknown|].
  exists (renderResponses_state (delete_state i st)).
  split; [apply deleteField_eq|].
  assert (Hf : formFields (delete_state i st) = formFields st).
  { unfold delete_state. simpl. by apply filter_unknown_id. }
  assert (Hr : formResponses (delete_state i st) = formResponses st) by done.
  split.
  - intros Hfne Hrne.
    rewrite renderResponses_state_keep by congruence.
    unfold delete_state. simpl. rewrite (filter_unknown_id _ _ Hno).
    repeat split. intros Hs. by apply insert_id.
  - intros Hempty.
    rewrite renderResponses_state_reset by (rewrite Hf, Hr; exact Hempty).
    done.
Qed.

(** The claim of C4 fails for [deleteField]: with one field and no
    response yet, deleting an id that no field has removes the field and
    erases the store. *)
Lemma deleteField_unknown_id_resets :
  (∀ field, field ∈ formFields st_one_field → id field ≠ "text-9")
  ∧ ∃ st', deleteField "text-9" st_one_field = Normal () st'
      ∧ formFields st_one_field = [name_field]
      ∧ formFields st' = []
      ∧ localStorage st_one_field !! "forms" = Some (SFields [name_field])
      ∧ localStorage st' !! "forms" = None.
Proof.
  split.
  - intros f Hf. apply list_elem_of_singleton in Hf as ->. done.
  - eexists. split; [vm_compute; reflexivity|]. by vm_compute.
Qed.






(** ** Submission (C2) *)

Lemma has_input_find sel dom :
  has_input sel dom ↔ is_Some (first_match sel dom).
Proof.
  unfold has_input, first_match. rewrite Exists_exists, fmap_is_Some. split.
  - intros (e & Hin & He). by eapply list_find_elem_of.
  - intros [[n e] (Hn & He & _)%list_find_Some].
    exists e. split; [by eapply list_elem_of_lookup_2 | done].
Qed.

Lemma value_of_first_match sel st :
  value_of (fst <$> list_find (λ e, selects sel e = true) (form st)) st
  = match first_match sel (form st) with
    | Some e => Normal (el_value e) st
    | None => TypeError st
    end.
Proof.
  unfold first_match, value_of.
  destruct (list_find _ _) as [[n e]|] eqn:Hfind; simpl; [|done].
  apply list_find_Some in Hfind as (Hn & _ & _). by rewrite Hn.
Qed.

Lemma bind_querySelector {B} sel (k : option nat → M B) st :
  (querySelector sel ≫= k) st
  = k (fst <$> list_find (λ e, selects sel e = true) (form st)) st.
Proof. reflexivity. Qed.

Lemma submit_field_eq acc field st :
  (type field = "text" → has_input (ById (id field)) (form st)) →
  submit_field acc field st = Normal (record_answer (form st) acc field) st.
Proof.
  intros Htext. unfold submit_field, record_answer, answer_of.
  rewrite bind_querySelector.
  destruct (bool_decide (type field = "text")) eqn:Et.
  - apply bool_decide_eq_true in Et.
    apply Htext, has_input_find in Et as [e He].
    erewrite bind_Normal
      by (rewrite value_of_first_match, He; reflexivity).
    by rewrite He.
  - destruct (bool_decide (type field = "radio")).
    + rewrite bind_querySelector.
      pose proof (value_of_first_match (CheckedByName (id field)) st) as Hv.
      unfold first_match in *.
      destruct (list_find _ _) as [[n e]|] eqn:Hfind; simpl in *; [|done].
      by erewrite bind_Normal by exact Hv.
    + destruct (bool_decide (type field = "checkbox")); reflexivity.
Qed.

Lemma forEach_submit_field fields acc st :
  text_inputs_present fields (form st) →
  forEach submit_field acc fields st
  = Normal (foldl (record_answer (form st)) acc fields) st.
Proof.
  revert acc. induction fields as [|f fs IH]; intros acc Hp; [done|].
  apply Forall_cons in Hp as [Hf Hfs]. simpl.
  erewrite bind_Normal by (by apply submit_field_eq). by apply IH.
Qed.



Lemma lookup_assign {V} k (v : V) (o : gmap string V) :
  k ≠ "__proto__" → Js.assign k v o !! k = Some v.
Proof.
  intros Hk. unfold Js.assign. rewrite bool_decide_eq_false_2 by done.
  apply lookup_insert_eq.
Qed.

Lemma lookup_assign_ne {V} k (v : V) (o : gmap string V) l :
  k ≠ l → Js.assign k v o !! l = o !! l.
Proof.
  intros Hk. unfold Js.assign. case_bool_decide; [done|].
  by apply lookup_insert_ne.
Qed.


(** A preview rendered from the fields gives every text field its input. *)
Lemma rendered_text_inputs fields :
  text_inputs_present fields (fields ≫= render_field).
Proof.
  apply Forall_forall. intros f Hf Ht. apply Exists_exists.
  exists (mkInput "text" (Some (id f)) None "" false false). split.
  - apply list_elem_of_bind. exists f. split; [|done].
    unfold render_field. rewrite bool_decide_eq_true_2 by done. by left.
  - simpl. by apply bool_decide_eq_true.
Qed.



(** With no field at all, the record that [submitForm] pushes is wiped by
    its own render pass, together with the store. *)
Lemma submitForm_no_fields_resets :
  ∃ st', submitForm 9 (added []) = Normal () st'
    ∧ formResponses st' = []
    ∧ localStorage st' = ∅.
Proof. eexists. split; [vm_compute; reflexivity|]. by vm_compute. Qed.

(** A text field whose input is not on the surface stops [submitForm]
    with a [TypeError], and nothing is recorded. *)
Lemma submitForm_missing_text_input_throws :
  submitForm 9 (set_form [] (added [name_field]))
  = TypeError (set_form [] (added [name_field])).
Proof. vm_compute. reflexivity. Qed.

(** ** Validation (C6) *)

Lemma marks_only_refl st : marks_only st st.
Proof. split; [by destruct st | done]. Qed.

Lemma marks_only_trans st1 st2 st3 :
  marks_only st1 st2 → marks_only st2 st3 → marks_only st1 st3.
Proof.
  intros [E1 U1] [E2 U2]. split; [|congruence].
  rewrite E2 at 1. rewrite E1 at 1. reflexivity.
Qed.

Lemma unmarked_alter b n dom :
  unmarked (alter (set_el_error b) n dom) = unmarked dom.
Proof.
  revert n. induction dom as [|e dom IH]; intros [|n]; try done.
  change (unmarked (e :: alter (set_el_error b) n dom) = unmarked (e :: dom)).
  unfold unmarked in *. rewrite !fmap_cons. f_equal. apply IH.
Qed.

Lemma selects_unmarked sel e : selects sel (set_el_error false e) = selects sel e.
Proof. by destruct sel. Qed.

Lemma first_match_unmarked sel dom :
  first_match sel (unmarked dom) = set_el_error false <$> first_match sel dom.
Proof.
  unfold first_match, unmarked. rewrite list_find_fmap.
  rewrite <- !option_fmap_compose.
  erewrite (list_find_ext _ (λ e, selects sel e = true));
    [|intros e; simpl; by rewrite selects_unmarked].
  by destruct (list_find _ dom) as [[n e]|].
Qed.

Lemma field_passes_unmarked dom field :
  field_passes (unmarked dom) field = field_passes dom field.
Proof.
  unfold field_passes. f_equal.
  rewrite first_match_unmarked.
  assert (Hsel : bool_decide (selected field (unmarked dom))
                 = bool_decide (selected field dom)).
  { apply bool_decide_ext. unfold selected.
    rewrite !has_input_find, first_match_unmarked. apply fmap_is_Some. }
  rewrite Hsel. by destruct (first_match _ dom).
Qed.

Lemma field_passes_marks_only st st' field :
  marks_only st st' →
  field_passes (form st') field = field_passes (form st) field.
Proof.
  intros [_ Hu].
  by rewrite <- (field_passes_unmarked (form st')), Hu, field_passes_unmarked.
Qed.

Lemma forallb_passes_marks_only st st' fields :
  marks_only st st' →
  forallb (field_passes (form st')) fields
  = forallb (field_passes (form st)) fields.
Proof.
  intros Hm. induction fields as [|f fs IH]; simpl; [done|].
  by rewrite IH, (field_passes_marks_only _ _ _ Hm).
Qed.

Lemma classList_set_marks b input st :
  marks_only st (final (classList_set b input st)).
Proof.
  unfold classList_set. destruct input as [n|]; simpl;
    [|apply marks_only_refl].
  split; [by destruct st | apply unmarked_alter].
Qed.

Lemma classList_set_ends b input v st :
  ends_with v st ((classList_set b input;; mret v) st).
Proof.
  pose proof (classList_set_marks b input st) as Hm.
  unfold mbind, M_bind.
  destruct (classList_set b input st) as [[] st1|st1]; simpl in *.
  - split; [done | by intros ?? [= <- _]].
  - split; [done | by intros ?? [=]].
Qed.

Lemma classList_remove_ends b input v st :
  ends_with v st ((classList_remove b input;; mret v) st).
Proof.
  destruct b, input as [n|]; try apply classList_set_ends.
  split; [apply marks_only_refl | by intros ?? [= <- _]].
Qed.

Lemma group_unselected_eq t field st :
  group_unselected t field st
  = Normal (bool_decide (type field = t)
            && negb (bool_decide (selected field (form st)))) st.
Proof.
  unfold group_unselected. case_bool_decide; [|done].
  rewrite bind_querySelector. unfold mret, M_ret. f_equal.
  rewrite andb_true_l. unfold selected.
  pose proof (has_input_find (CheckedByName (id field)) (form st)) as Hh.
  unfold first_match in Hh.
  destruct (list_find _ _) as [[n e]|] eqn:Hfind.
  - rewrite (bool_decide_eq_true_2 (has_input _ _)) by (apply Hh; eauto).
    by apply bool_decide_eq_false_2.
  - rewrite (bool_decide_eq_false_2 (has_input _ _))
      by (intros [? [=]]%Hh).
    by apply bool_decide_eq_true_2.
Qed.

Lemma validate_field_ends b valid field st :
  ends_with (valid && field_passes (form st) field) st
    (validate_field b valid field st).
Proof.
  unfold validate_field, field_passes. rewrite bind_querySelector.
  set (input := fst <$> list_find _ (form st)).
  destruct (required field); cbn [negb orb];
    [|rewrite andb_true_r; apply classList_remove_ends].
  destruct (bool_decide (type field = "text")) eqn:Et.
  - apply bool_decide_eq_true in Et.
    unfold mbind at 1, M_bind at 1. unfold mbind at 1, M_bind at 1.
    subst input. rewrite value_of_first_match.
    destruct (first_match _ _) as [e|];
      [|split; [apply marks_only_refl | by intros ?? [=]]].
    unfold mret at 1, M_ret at 1. cbv beta iota.
    destruct (Js.truthy (el_value e)); cbn [negb].
    + erewrite bind_Normal by apply group_unselected_eq.
      rewrite Et. cbn [bool_decide andb].
      rewrite (bool_decide_eq_false_2 ("text" = "radio")) by done.
      cbn [andb].
      erewrite bind_Normal by apply group_unselected_eq.
      rewrite Et, (bool_decide_eq_false_2 ("text" = "checkbox")) by done.
      cbn [andb]. rewrite andb_true_r.
      apply classList_remove_ends.
    + rewrite andb_false_r. apply classList_set_ends.
  - unfold mbind at 1, M_bind at 1, mret at 1, M_ret at 1.
    erewrite bind_Normal by apply group_unselected_eq.
    destruct (bool_decide (type field = "radio")) eqn:Er; cbn [andb orb].
    + destruct (bool_decide (selected field (form st))); cbn [negb].
      * erewrite bind_Normal by apply group_unselected_eq.
        apply bool_decide_eq_true in Er. rewrite Er.
        rewrite (bool_decide_eq_false_2 ("radio" = "checkbox")) by done.
        cbn [andb]. rewrite andb_true_r. apply classList_remove_ends.
      * rewrite andb_false_r. apply classList_set_ends.
    + erewrite bind_Normal by apply group_unselected_eq.
      destruct (bool_decide (type field = "checkbox")); cbn [andb orb].
      * destruct (bool_decide (selected field (form st))); cbn [negb].
        -- rewrite andb_true_r. apply classList_remove_ends.
        -- rewrite andb_false_r. apply classList_set_ends.
      * rewrite andb_true_r. apply classList_remove_ends.
Qed.

Lemma forEach_validate_ends b fields valid st :
  ends_with (valid && forallb (field_passes (form st)) fields) st
    (forEach (validate_field b) valid fields st).
Proof.
  revert valid st. induction fields as [|f fs IH]; intros valid st; simpl.
  - rewrite andb_true_r.
    split; [apply marks_only_refl | by intros ?? [= <- _]].
  - destruct (validate_field_ends b valid f st) as [Hm Hv].
    unfold mbind, M_bind.
    destruct (validate_field b valid f st) as [v1 st1|st1]; simpl in *.
    + destruct (IH v1 st1) as [Hm' Hv'].
      split; [by eapply marks_only_trans|].
      intros v' st' Hrun. apply Hv' in Hrun as ->.
      rewrite (Hv v1 st1 eq_refl), <- andb_assoc. f_equal. f_equal.
      by apply forallb_passes_marks_only.
    + split; [done | by intros ?? [=]].
Qed.

Lemma validateForm_eq b st :
  validateForm b st = forEach (validate_field b) true (formFields st) st.
Proof. reflexivity. Qed.

(** Whenever [validateForm] returns, it returns the conjunction of the
    spec's rule over the fields, and it has changed error marks only. *)
Lemma validateForm_returns b st v st' :
  validateForm b st = Normal v st' →
  v = forallb (field_passes (form st)) (formFields st) ∧ marks_only st st'.
Proof.
  rewrite validateForm_eq. intros Hrun.
  destruct (forEach_validate_ends b (formFields st) true st) as [Hm Hv].
  rewrite Hrun in Hm. split; [by apply (Hv v st') | exact Hm].
Qed.

(** Unless [validateForm] returns true, the submit click appends no
    record: fields, responses and store stay as they were. *)
Lemma submit_form_click_blocked b now st :
  (∀ st', validateForm b st ≠ Normal true st') →
  marks_only st (final (submit_form_click b now st)).
Proof.
  intros Hnot.
  pose proof (forEach_validate_ends b (formFields st) true st) as [Hm _].
  rewrite <- validateForm_eq in Hm. unfold submit_form_click.
  destruct (validateForm b st) as [v st1|st1] eqn:Hrun.
  - erewrite bind_Normal by exact Hrun.
    destruct v; [by destruct (Hnot st1) | exact Hm].
  - erewrite bind_TypeError by exact Hrun. exact Hm.
Qed.

(** C6, at the failing input. One required radio field, shown by
    [renderForm], with no option selected. The spec's rule answers false,
    but the radio inputs carry no id, so [document.querySelector('#' + id)]
    is [null] and [input.classList.add('error')] throws: in both builds
    [validateForm] ends in a [TypeError] instead of returning, and so does
    the submit click. *)
Theorem validateForm_required_radio_throws (b : Build) :
  form (added [color_field])
  = [mkInput "radio" None (Some "radio-3") "Red" false false;
     mkInput "radio" None (Some "radio-3") "Blue" false false]
  ∧ first_match (ById (id color_field)) (form (added [color_field])) = None
  ∧ forallb (field_passes (form (added [color_field]))) [color_field] = false
  ∧ validateForm b (added [color_field]) = TypeError (added [color_field])
  ∧ ∀ now, submit_form_click b now (added [color_field])
           = TypeError (added [color_field]).
Proof.
  assert (Hthrow : validateForm b (added [color_field])
                   = TypeError (added [color_field]))
    by (destruct b; vm_compute; reflexivity).
  split; [reflexivity|]. split; [reflexivity|].
  split; [by vm_compute|]. split; [exact Hthrow|].
  intros now. unfold submit_form_click. by erewrite bind_TypeError.
Qed.

(** With every required answer given, the TypeScript source still throws
    on the first radio or checkbox field (its [classList.remove] is
    unguarded), while [script.js] returns true. *)
Lemma validateForm_filled_builds :
  (∃ st', validateForm TypeScript st_filled = TypeError st')
  ∧ validateForm ScriptJs st_filled = Normal true st_filled.
Proof. split; [eexists|]; vm_compute; reflexivity. Qed.

(** ** Instances *)

Lemma renderResponses_teardown_witness :
  (formFields st_one_field = [] ∨ formResponses st_one_field = [])
  ∧ (∃ st', renderResponses st_one_field = Normal () st'
       ∧ formFields st' = [] ∧ formResponses st' = []
       ∧ localStorage st' = ∅
       ∧ localStorage st' !! "forms" = None
       ∧ localStorage st' !! "formResponses" = None
       ∧ response_review st' = None)
  ∧ (formFields st_two_fields_one_response ≠ []
     ∧ formResponses st_two_fields_one_response ≠ [])
  ∧ (∃ st', renderResponses st_two_fields_one_response = Normal () st'
       ∧ formFields st' = formFields st_two_fields_one_response
       ∧ formResponses st' = formResponses st_two_fields_one_response
       ∧ localStorage st' = localStorage st_two_fields_one_response).
Proof.
  split; [right; reflexivity|].
  split; [apply (proj1 (renderResponses_teardown st_one_field));
          right; reflexivity|].
  split; [split; discriminate|].
  apply (proj2 (renderResponses_teardown st_two_fields_one_response));
    discriminate.
Defined.


Lemma unknown_id_edit_delete_witness :
  (∀ field, field ∈ formFields st_two_fields_one_response →
     id field ≠ "text-9")
  ∧ (∀ answer, editField "text-9" answer st_two_fields_one_response
               = Normal () st_two_fields_one_response)
  ∧ ∃ st', deleteField "text-9" st_two_fields_one_response = Normal () st'
      ∧ formFields st' = formFields st_two_fields_one_response
      ∧ formResponses st' = formResponses st_two_fields_one_response
      ∧ localStorage st' = localStorage st_two_fields_one_response.
Proof.
  assert (Hno : ∀ field, field ∈ formFields st_two_fields_one_response →
                  id field ≠ "text-9").
  { apply Forall_forall. apply (bool_decide_unpack _). by vm_compute. }
  split; [exact Hno|].
  destruct (unknown_id_edit_delete "text-9" st_two_fields_one_response Hno)
    as [Hedit (st' & Hdel & Hkeep & _)].
  split; [exact Hedit|]. exists st'. split; [exact Hdel|].
  destruct Hkeep as (Hf & Hr & _ & Hs); [discriminate..|].
  split; [exact Hf|]. split; [exact Hr|]. apply Hs. by vm_compute.
Defined.


Lemma add_field_click_rejects_witness :
  (Js.trim (field_label st_adding_duplicate) = ""
   ∨ (∃ field, field ∈ formFields st_adding_duplicate
        ∧ eq_ignoring_case (label field) (field_label st_adding_duplicate)))
  ∧ ∃ st', add_field_click true 9 st_adding_duplicate = Normal () st'
      ∧ error_message st' = invalid_label_message
      ∧ error_color st' = "red"
      ∧ formFields st' = formFields st_adding_duplicate
      ∧ formResponses st' = formResponses st_adding_duplicate
      ∧ localStorage st' = localStorage st_adding_duplicate
      ∧ form st' = form st_adding_duplicate
      ∧ response_review st' = response_review st_adding_duplicate.
Proof.
  assert (Hdup : Js.trim (field_label st_adding_duplicate) = ""
    ∨ (∃ field, field ∈ formFields st_adding_duplicate
         ∧ eq_ignoring_case (label field)
             (field_label st_adding_duplicate))).
  { right. exists name_field. split; [left | reflexivity]. }
  split; [exact Hdup|].
  exact (add_field_click_rejects true 9 st_adding_duplicate Hdup).
Defined.

Lemma add_field_click_options_witness :
  isValidLabel (field_label st_adding_radio) st_adding_radio = true
  ∧ (field_type st_adding_radio = "radio"
     ∨ field_type st_adding_radio = "checkbox")
  ∧ ∃ (st' : State) (field : FormField) (opts : list string),
      add_field_click false 9 st_adding_radio = Normal () st'
      ∧ formFields st' = (formFields st_adding_radio ++ [field])%list
      ∧ type field = field_type st_adding_radio
      ∧ label field = field_label st_adding_radio
      ∧ options field = Some opts
      ∧ opts = Js.trim <$> Js.split "," (field_options_input st_adding_radio)
      ∧ opts ≠ []
      ∧ (field_options_input st_adding_radio = "" → opts = [""]).
Proof.
  split; [reflexivity|]. split; [left; reflexivity|].
  apply (add_field_click_options false 9 st_adding_radio);
    [reflexivity | left; reflexivity].
Defined.

(** ** When validation returns *)

Lemma has_input_unmarked sel dom :
  has_input sel (unmarked dom) ↔ has_input sel dom.
Proof. rewrite !has_input_find, first_match_unmarked. apply fmap_is_Some. Qed.

Lemma has_input_marks_only sel st st' :
  marks_only st st' → has_input sel (form st') ↔ has_input sel (form st).
Proof.
  intros [_ Hu]. by rewrite <- (has_input_unmarked sel (form st')), Hu,
    has_input_unmarked.
Qed.

Lemma field_throws_marks_only b st st' field :
  marks_only st st' →
  field_throws b (form st') field = field_throws b (form st) field.
Proof.
  intros Hm. unfold field_throws, selected.
  rewrite (bool_decide_ext _ _
    (not_iff_compat (has_input_marks_only (ById (id field)) _ _ Hm))).
  rewrite (bool_decide_ext _ _
    (not_iff_compat (has_input_marks_only (CheckedByName (id field)) _ _ Hm))).
  reflexivity.
Qed.

Lemma value_of_Some n e st :
  form st !! n = Some e → value_of (Some n) st = Normal (el_value e) st.
Proof. intros Hn. unfold value_of. simpl. by rewrite Hn. Qed.

Lemma validate_field_throws b valid field st :
  is_TypeError (validate_field b valid field st)
  = field_throws b (form st) field.
Proof.
  unfold validate_field, field_throws. rewrite bind_querySelector.
  pose proof (has_input_find (ById (id field)) (form st)) as Hh.
  unfold first_match in Hh.
  destruct (list_find _ _) as [[n e]|] eqn:Hfind.
  - rewrite (bool_decide_eq_false_2 (¬ _)) by (intros Hno; apply Hno, Hh; eauto).
    apply list_find_Some in Hfind as (Hn & _ & _).
    cbn [fmap option_fmap option_map fst andb].
    destruct (required field); [|by destruct b].
    destruct (bool_decide (type field = "text")).
    + erewrite bind_Normal
        by (erewrite bind_Normal by (by apply value_of_Some); reflexivity).
      destruct (negb (Js.truthy (el_value e))); [done|].
      erewrite bind_Normal by apply group_unselected_eq.
      destruct (_ && _); [done|].
      erewrite bind_Normal by apply group_unselected_eq.
      destruct (_ && _); [done | by destruct b].
    + erewrite bind_Normal by reflexivity. cbv iota.
      erewrite bind_Normal by apply group_unselected_eq.
      destruct (_ && _); [done|].
      erewrite bind_Normal by apply group_unselected_eq.
      destruct (_ && _); [done | by destruct b].
  - rewrite (bool_decide_eq_true_2 (¬ _)) by (by intros [? [=]]%Hh).
    cbn [fmap option_fmap option_map andb]. rewrite bool_decide_not.
    destruct (required field); [|by destruct b].
    destruct (bool_decide (type field = "text")) eqn:Et.
    + erewrite bind_TypeError
        by (erewrite bind_TypeError by reflexivity; reflexivity).
      by destruct b.
    + erewrite bind_Normal by reflexivity. cbv iota.
      erewrite bind_Normal by apply group_unselected_eq.
      destruct (bool_decide (type field = "radio")) eqn:Er;
        destruct (bool_decide (selected field (form st))) eqn:Es;
        cbn [andb orb negb].
      * erewrite bind_Normal by apply group_unselected_eq.
        apply bool_decide_eq_true in Er. rewrite Er.
        rewrite (bool_decide_eq_false_2 ("radio" = "checkbox")) by done.
        by destruct b.
      * by destruct b.
      * erewrite bind_Normal by apply group_unselected_eq. rewrite Es.
        destruct (bool_decide (type field = "checkbox")); by destruct b.
      * erewrite bind_Normal by apply group_unselected_eq. rewrite Es.
        destruct (bool_decide (type field = "checkbox")); by destruct b.
Qed.

Lemma forEach_validate_throws b fields valid st :
  is_TypeError (forEach (validate_field b) valid fields st)
  = existsb (field_throws b (form st)) fields.
Proof.
  revert valid st. induction fields as [|f fs IH]; intros valid st; [done|].
  cbn [forEach existsb]. rewrite <- validate_field_throws with (valid := valid).
  destruct (validate_field_ends b valid f st) as [Hm _].
  unfold mbind, M_bind.
  destruct (validate_field b valid f st) as [v1 st1|st1]; [|done].
  cbn in Hm |- *. rewrite IH. clear IH.
  induction fs as [|g gs IHg]; [done|]. cbn [existsb].
  by rewrite IHg, (field_throws_marks_only _ _ _ _ Hm).
Qed.

Lemma validateForm_run b st :
  ∃ st', marks_only st st'
    ∧ validateForm b st
      = if existsb (field_throws b (form st)) (formFields st)
        then TypeError st'
        else Normal (forallb (field_passes (form st)) (formFields st)) st'.
Proof.
  rewrite validateForm_eq.
  pose proof (forEach_validate_throws b (formFields st) true st) as Hthrow.
  destruct (forEach_validate_ends b (formFields st) true st) as [Hm Hv].
  destruct (forEach _ _ _ st) as [v st'|st'] eqn:Hrun; simpl in *.
  - exists st'. split; [exact Hm|]. rewrite <- Hthrow.
    by rewrite (Hv v st' eq_refl).
  - exists st'. split; [exact Hm|]. by rewrite <- Hthrow.
Qed.

(** X1. [validateForm] stops with a [TypeError] exactly when some field's
    callback dereferences a missing control, and otherwise returns the
    conjunction of the per-field rule; either way it has changed error
    marks only. *)
Theorem validateForm_completion (b : Build) (st : State) :
  ∃ st', marks_only st st'
    ∧ validateForm b st
      = if existsb (field_throws b (form st)) (formFields st)
        then TypeError st'
        else Normal (forallb (field_passes (form st)) (formFields st)) st'.
Proof. apply validateForm_run. Qed.

Lemma shows_ids fields dom i :
  shows fields dom →
  has_input (ById i) dom
  ↔ ∃ field, field ∈ fields ∧ type field = "text" ∧ id field = i.
Proof.
  intros Hs.
  assert (Hid : el_id <$> dom = el_id <$> (fields ≫= render_field)).
  { unfold shows in Hs. induction Hs as [|e e' l l' (_ & He & _) _ IH];
      [done|]. rewrite !fmap_cons. by f_equal. }
  assert (Hin : has_input (ById i) dom ↔ Some i ∈ el_id <$> dom).
  { unfold has_input. rewrite Exists_exists, list_elem_of_fmap. simpl.
    split.
    - intros (e & He & Hi%bool_decide_eq_true). by exists e.
    - intros (e & Hi & He). exists e. split; [done|].
      by apply bool_decide_eq_true. }
  rewrite Hin, Hid, list_elem_of_fmap. split.
  - intros (e & Hi & (f & He & Hf)%list_elem_of_bind). exists f.
    split; [done|]. unfold render_field in He.
    repeat case_bool_decide.
    + apply list_elem_of_singleton in He as ->. simpl in Hi.
      split; [done | congruence].
    + destruct (options f); [|by apply elem_of_nil in He].
      apply list_elem_of_fmap in He as (o & -> & _). done.
    + destruct (options f); [|by apply elem_of_nil in He].
      apply list_elem_of_fmap in He as (o & -> & _). done.
    + by apply elem_of_nil in He.
  - intros (f & Hf & Ht & <-).
    exists (mkInput "text" (Some (id f)) None "" false false).
    split; [done|]. apply list_elem_of_bind. exists f. split; [|done].
    unfold render_field. rewrite bool_decide_eq_true_2 by done. by left.
Qed.

Lemma existsb_true_elem {A} (f : A → bool) (l : list A) x :
  x ∈ l → f x = true → existsb f l = true.
Proof.
  intros Hin Hf. apply existsb_exists. exists x.
  split; [by apply list_elem_of_In | done].
Qed.

Lemma submit_form_click_throws b now st :
  existsb (field_throws b (form st)) (formFields st) = true →
  ∃ st', submit_form_click b now st = TypeError st' ∧ marks_only st st'.
Proof.
  intros Hex. destruct (validateForm_run b st) as (st' & Hm & Hrun).
  rewrite Hex in Hrun. exists st'. split; [|done].
  unfold submit_form_click. by erewrite bind_TypeError.
Qed.

Lemma marks_only_frame st st' :
  marks_only st st' →
  formFields st' = formFields st ∧ formResponses st' = formResponses st
  ∧ localStorage st' = localStorage st
  ∧ response_review st' = response_review st.
Proof. intros [-> _]. done. Qed.

Lemma shows_rendered fields : shows fields (fields ≫= render_field).
Proof. apply Forall_Forall2_diag, Forall_forall. done. Qed.

(** X2. In the TypeScript source, a preview that shows a field whose id
    is not the id of a text field (so any radio or checkbox field created
    by the add path) makes the submit click stop with a [TypeError]:
    nothing is recorded, whatever the user selected. *)
Theorem submit_click_TypeScript_throws (now : N) (st : State)
    (field : FormField) :
  shows (formFields st) (form st) →
  field ∈ formFields st →
  (∀ g, g ∈ formFields st → type g = "text" → id g ≠ id field) →
  ∃ st', submit_form_click TypeScript now st = TypeError st'
    ∧ formFields st' = formFields st
    ∧ formResponses st' = formResponses st
    ∧ localStorage st' = localStorage st.
Proof.
  intros Hs Hin Hid.
  destruct (submit_form_click_throws TypeScript now st) as (st' & Hrun & Hm).
  - apply (existsb_true_elem _ _ field Hin). unfold field_throws.
    rewrite andb_true_r. apply bool_decide_eq_true.
    intros (g & Hg & Ht & Hi)%(shows_ids _ _ _ Hs). by apply (Hid g).
  - exists st'. split; [exact Hrun|].
    apply marks_only_frame in Hm as (? & ? & ? & _). done.
Qed.

(** X3. In [script.js], a preview that shows a required radio or checkbox
    field with no option selected (its id not being a text field's id)
    makes the submit click stop with a [TypeError] instead of a plain
    refusal; nothing is recorded. *)
Theorem submit_click_ScriptJs_unselected_throws (now : N) (st : State)
    (field : FormField) :
  shows (formFields st) (form st) →
  field ∈ formFields st →
  required field = true →
  type field = "radio" ∨ type field = "checkbox" →
  ¬ selected field (form st) →
  (∀ g, g ∈ formFields st → type g = "text" → id g ≠ id field) →
  ∃ st', submit_form_click ScriptJs now st = TypeError st'
    ∧ formFields st' = formFields st
    ∧ formResponses st' = formResponses st
    ∧ localStorage st' = localStorage st.
Proof.
  intros Hs Hin Hreq Hty Hsel Hid.
  destruct (submit_form_click_throws ScriptJs now st) as (st' & Hrun & Hm).
  - apply (existsb_true_elem _ _ field Hin). unfold field_throws.
    rewrite Hreq, (bool_decide_eq_true_2 (¬ selected _ _)) by done.
    rewrite andb_true_r. cbn [andb].
    assert (Hg : bool_decide (type field = "radio")
                 || bool_decide (type field = "checkbox") = true).
    { destruct Hty as [-> | ->]; reflexivity. }
    rewrite Hg, orb_true_r, andb_true_r. apply bool_decide_eq_true.
    intros (g & Hg' & Ht & Hi)%(shows_ids _ _ _ Hs). by apply (Hid g).
  - exists st'. split; [exact Hrun|].
    apply marks_only_frame in Hm as (? & ? & ? & _). done.
Qed.

(** X4. In [script.js], on a preview that shows the fields and in which
    every required radio or checkbox field has an option selected,
    [validateForm] returns, with the conjunction of the per-field rule as
    its value, and changes error marks only. *)
Theorem validateForm_ScriptJs_returns (st : State) :
  shows (formFields st) (form st) →
  (∀ field, field ∈ formFields st → required field = true →
     type field = "radio" ∨ type field = "checkbox" →
     selected field (form st)) →
  ∃ st', validateForm ScriptJs st
         = Normal (forallb (field_passes (form st)) (formFields st)) st'
    ∧ marks_only st st'.
Proof.
  intros Hs Hsel. destruct (validateForm_run ScriptJs st) as (st' & Hm & Hrun).
  exists st'. split; [|exact Hm]. rewrite Hrun.
  assert (Hno : existsb (field_throws ScriptJs (form st)) (formFields st)
                = false); [|by rewrite Hno].
  apply not_true_iff_false. intros (f & Hf%list_elem_of_In & Ht)%existsb_exists.
  unfold field_throws in Ht.
  apply andb_true_iff in Ht as [Hnone%bool_decide_eq_true Ht].
  apply andb_true_iff in Ht as [Hreq Ht].
  apply orb_true_iff in Ht as [Htext%bool_decide_eq_true | Ht].
  - apply Hnone, (shows_ids _ _ _ Hs). by exists f.
  - apply andb_true_iff in Ht as [Hg Hns%bool_decide_eq_true].
    apply Hns, Hsel; [done..|].
    apply orb_true_iff in Hg as [?%bool_decide_eq_true | ?%bool_decide_eq_true];
      [by left | by right].
Qed.

(** X5. In either build, when every field is a text field whose input is
    on the surface, [validateForm] returns, with the conjunction of the
    per-field rule as its value, and changes error marks only. *)
Theorem validateForm_text_only_returns (b : Build) (st : State) :
  (∀ field, field ∈ formFields st → type field = "text") →
  text_inputs_present (formFields st) (form st) →
  ∃ st', validateForm b st
         = Normal (forallb (field_passes (form st)) (formFields st)) st'
    ∧ marks_only st st'.
Proof.
  intros Htext Hp. destruct (validateForm_run b st) as (st' & Hm & Hrun).
  exists st'. split; [|exact Hm]. rewrite Hrun.
  assert (Hno : existsb (field_throws b (form st)) (formFields st) = false);
    [|by rewrite Hno].
  apply not_true_iff_false. intros (f & Hf%list_elem_of_In & Ht)%existsb_exists.
  unfold field_throws in Ht.
  apply andb_true_iff in Ht as [Hnone%bool_decide_eq_true _].
  apply Hnone. unfold text_inputs_present in Hp.
  rewrite Forall_forall in Hp. apply Hp; [done | by apply Htext].
Qed.

(** ** Adding a field *)

Lemma add_field_click_valid required0 now st :
  isValidLabel (field_label st) st = true →
  add_field_click required0 now st = Normal () (add_state required0 now st).
Proof.
  intros Hv. unfold add_field_click. rewrite !bind_gets, Hv. reflexivity.
Qed.

Lemma add_field_click_invalid required0 now st :
  isValidLabel (field_label st) st = false →
  add_field_click required0 now st
  = Normal () (set_error invalid_label_message "red" st).
Proof.
  intros Hv. unfold add_field_click. rewrite !bind_gets, Hv. reflexivity.
Qed.

(** X6. An add with an acceptable label appends exactly one field, with
    id [<type>-<now>], the label as typed (not trimmed), the answer to the
    required prompt, and no options unless the kind is radio or checkbox.
    The stored field list and the preview are rebuilt from the new list,
    the label and options inputs and the error text are cleared, and the
    responses and the response table are not touched. *)
Theorem add_field_click_adds (required0 : bool) (now : N) (st : State) :
  isValidLabel (field_label st) st = true →
  ∃ (st' : State) (field : FormField),
    add_field_click required0 now st = Normal () st'
    ∧ formFields st' = (formFields st ++ [field])%list
    ∧ id field = field_type st +:+ "-" +:+ pretty now
    ∧ type field = field_type st
    ∧ label field = field_label st
    ∧ required field = required0
    ∧ (field_type st ≠ "radio" → field_type st ≠ "checkbox" →
       options field = None)
    ∧ localStorage st'
      = <["forms" := SFields (formFields st')]> (localStorage st)
    ∧ form st' = formFields st' ≫= render_field
    ∧ formResponses st' = formResponses st
    ∧ response_review st' = response_review st
    ∧ field_label st' = "" ∧ field_options_input st' = ""
    ∧ error_message st' = "" ∧ field_type st' = field_type st.
Proof.
  intros Hv. exists (add_state required0 now st), (new_field required0 now st).
  split; [by apply add_field_click_valid|].
  repeat split. simpl. intros Hr Hc.
  by rewrite !bool_decide_eq_false_2 by done.
Qed.

Lemma labels_valid_snoc fields field :
  labels_valid fields →
  valid_label_spec (label field) fields →
  labels_valid (fields ++ [field]).
Proof.
  intros [Hne Hnd] [Hn Hfresh]. split.
  - apply Forall_app. split; [done|]. by apply Forall_singleton.
  - rewrite fmap_app. apply NoDup_app. split; [done|]. split.
    + intros x (g & -> & Hg)%list_elem_of_fmap Hx.
      apply list_elem_of_singleton in Hx. by apply (Hfresh g).
    + apply NoDup_singleton.
Qed.

(** X7. The add path keeps the label rule: if no label of the field list
    is blank and no two agree up to case, the same holds after any click
    on the add button, accepted or rejected. *)
Theorem add_field_click_keeps_labels_valid (required0 : bool) (now : N)
    (st : State) :
  labels_valid (formFields st) →
  labels_valid (formFields (final (add_field_click required0 now st))).
Proof.
  intros Hl. destruct (isValidLabel (field_label st) st) eqn:Hv.
  - rewrite add_field_click_valid by done. simpl.
    apply labels_valid_snoc; [done|]. by apply isValidLabel_true_iff.
  - by rewrite add_field_click_invalid.
Qed.

(** X8. The options box is shown for exactly the kinds whose fields get
    options: after the change handler ran for the selected kind,
    [#field-options] is visible if and only if an add of that kind stores
    an options sequence on the new field. *)
Theorem options_shown_iff_stored (required0 : bool) (now : N) (st : State) :
  isValidLabel (field_label st) st = true →
  ∃ (st' : State) (field : FormField),
    add_field_click required0 now st = Normal () st'
    ∧ last (formFields st') = Some field
    ∧ (field_type_change (field_type st) = false ↔ is_Some (options field)).
Proof.
  intros Hv. exists (add_state required0 now st), (new_field required0 now st).
  split; [by apply add_field_click_valid|].
  split; [simpl; apply last_snoc|].
  unfold field_type_change, new_field. simpl.
  destruct (_ || _); split; eauto; [done | by intros [? ?]].
Qed.

(** ** The render pass *)

(** X9. After [renderResponses] the two collections are empty together or
    non-empty together; the table is shown exactly when they are
    non-empty, and when they are empty the store is empty too. *)
Theorem renderResponses_balanced (st : State) :
  ∃ st', renderResponses st = Normal () st'
    ∧ (formFields st' = [] ↔ formResponses st' = [])
    ∧ (response_review st' = None ↔ formFields st' = [])
    ∧ (formFields st' = [] → localStorage st' = ∅)
    ∧ (formFields st' ≠ [] →
       response_review st'
       = Some (render_table (formFields st') (formResponses st'))).
Proof.
  exists (renderResponses_state st). split; [apply renderResponses_eq|].
  unfold renderResponses_state.
  destruct (formResponses st) as [|r rs] eqn:Er,
           (formFields st) as [|f fs] eqn:Ef; simpl; rewrite ?Er, ?Ef;
    repeat split; done.
Qed.

Lemma renderResponses_state_idem st :
  renderResponses_state (renderResponses_state st) = renderResponses_state st.
Proof.
  unfold renderResponses_state at 2.
  destruct (formResponses st) as [|r rs] eqn:Er,
           (formFields st) as [|f fs] eqn:Ef;
    unfold renderResponses_state; simpl; rewrite ?Er, ?Ef; try done.
Qed.

(** X10. The render pass of the response table is idempotent: running it
    twice leaves the state of running it once. *)
Theorem renderResponses_idempotent (st : State) :
  (renderResponses;; renderResponses) st = renderResponses st.
Proof.
  erewrite bind_Normal by apply renderResponses_eq.
  by rewrite !renderResponses_eq, renderResponses_state_idem.
Qed.

(** ** The preview after a mutation *)

Lemma rendered_pristine fields : Forall pristine (fields ≫= render_field).
Proof.
  apply Forall_forall. intros e (f & He & _)%list_elem_of_bind.
  unfold render_field in He. repeat case_bool_decide.
  - apply list_elem_of_singleton in He as ->. done.
  - destruct (options f); [|by apply elem_of_nil in He].
    apply list_elem_of_fmap in He as (o & -> & _). done.
  - destruct (options f); [|by apply elem_of_nil in He].
    apply list_elem_of_fmap in He as (o & -> & _). done.
  - by apply elem_of_nil in He.
Qed.

Lemma form_renderResponses_state st :
  form (renderResponses_state st) = form st.
Proof.
  unfold renderResponses_state.
  by destruct (formResponses st), (formFields st).
Qed.

(** X11. Every change of the field list rebuilds the preview from
    scratch: after a delete, an accepted add or an answered edit, no
    control of the preview is checked or marked and every text input is
    empty, whatever the user had entered before. *)
Theorem mutation_resets_preview (i newLabel : string) (required0 : bool)
    (now : N) (st : State) :
  Forall pristine (form (final (deleteField i st)))
  ∧ (isValidLabel (field_label st) st = true →
     Forall pristine (form (final (add_field_click required0 now st))))
  ∧ (is_Some (list_find (λ f, id f = i) (formFields st)) →
     Forall pristine (form (final (editField i (Some newLabel) st)))).
Proof.
  split; [|split].
  - rewrite deleteField_eq. simpl. rewrite form_renderResponses_state.
    apply rendered_pristine.
  - intros Hv. rewrite add_field_click_valid by done. apply rendered_pristine.
  - intros [[n f] Hfind]. rewrite (editField_found _ _ _ _ _ Hfind). simpl.
    rewrite form_renderResponses_state. apply rendered_pristine.
Qed.

(** ** Editing and deleting before the first submission *)

(** X12. While no response is recorded, deleting any id empties the whole
    field list and the store; the preview, rebuilt before the reset,
    still shows the fields with another id. *)
Theorem deleteField_without_responses (i : string) (st : State) :
  formResponses st = [] →
  ∃ st', deleteField i st = Normal () st'
    ∧ formFields st' = []
    ∧ localStorage st' = ∅
    ∧ response_review st' = None
    ∧ form st'
      = filter (λ field, id field ≠ i) (formFields st) ≫= render_field.
Proof.
  intros Hr. exists (renderResponses_state (delete_state i st)).
  split; [apply deleteField_eq|].
  by rewrite renderResponses_state_reset by (by right).
Qed.

(** X13. While no response is recorded, renaming a field empties the
    whole field list and the store; the preview still shows the fields,
    the renamed one included. *)
Theorem editField_without_responses (i newLabel : string) (n : nat)
    (field : FormField) (st : State) :
  list_find (λ f, id f = i) (formFields st) = Some (n, field) →
  formResponses st = [] →
  ∃ st', editField i (Some newLabel) st = Normal () st'
    ∧ formFields st' = []
    ∧ localStorage st' = ∅
    ∧ response_review st' = None
    ∧ form st'
      = <[n := set_label newLabel field]> (formFields st) ≫= render_field.
Proof.
  intros Hfind Hr. exists (renderResponses_state (edit_state n field newLabel st)).
  split; [by apply editField_found|].
  by rewrite renderResponses_state_reset by (by right).
Qed.

(** X14. With responses recorded, an answered edit changes the label of
    the first field with that id and nothing else: every other field, and
    the id, kind, options and required flag of the renamed one, stay; the
    responses stay; the stored field list is rewritten with the new list
    and the stored responses are not touched. *)
Theorem editField_renames_only (i newLabel : string) (n : nat)
    (field : FormField) (st : State) :
  list_find (λ f, id f = i) (formFields st) = Some (n, field) →
  formResponses st ≠ [] →
  ∃ st', editField i (Some newLabel) st = Normal () st'
    ∧ formFields st' = <[n := set_label newLabel field]> (formFields st)
    ∧ (∀ m g, m < n → formFields st !! m = Some g → id g ≠ i)
    ∧ (∀ m, m ≠ n → formFields st' !! m = formFields st !! m)
    ∧ id <$> formFields st' = id <$> formFields st
    ∧ type <$> formFields st' = type <$> formFields st
    ∧ options <$> formFields st' = options <$> formFields st
    ∧ required <$> formFields st' = required <$> formFields st
    ∧ formResponses st' = formResponses st
    ∧ localStorage st'
      = <["forms" := SFields (formFields st')]> (localStorage st)
    ∧ localStorage st' !! "formResponses"
      = localStorage st !! "formResponses".
Proof.
  intros Hfind Hr.
  pose proof Hfind as (Hn & _ & Hfirst)%list_find_Some.
  exists (renderResponses_state (edit_state n field newLabel st)).
  split; [by apply editField_found|].
  assert (Hne : formFields (edit_state n field newLabel st) ≠ []).
  { simpl. intros E. apply (f_equal length) in E.
    rewrite length_insert in E. apply lookup_lt_Some in Hn.
    simpl in E. lia. }
  rewrite renderResponses_state_keep by done. simpl.
  split; [done|]. split; [intros m g ??; by eapply Hfirst|].
  split; [intros m Hm; by apply list_lookup_insert_ne|].
  assert (Hsame : ∀ {B} (p : FormField → B),
    p (set_label newLabel field) = p field →
    p <$> <[n := set_label newLabel field]> (formFields st)
    = p <$> formFields st).
  { intros B p Hp. rewrite list_fmap_insert, Hp.
    apply list_insert_id. by rewrite list_lookup_fmap, Hn. }
  repeat split; try by apply Hsame.
  by rewrite lookup_insert_ne.
Qed.

(** ** What a submission records and shows *)

Lemma submitForm_eq now st :
  text_inputs_present (formFields st) (form st) →
  submitForm now st = Normal () (renderResponses_state (submit_state now st)).
Proof.
  intros Hp. unfold submitForm. rewrite bind_gets.
  erewrite bind_Normal by (by apply forEach_submit_field).
  rewrite !bind_modify. apply renderResponses_eq.
Qed.

Lemma foldl_record_answer_other dom fields acc l :
  l ∉ label <$> fields →
  foldl (record_answer dom) acc fields !! l = acc !! l.
Proof.
  revert acc. induction fields as [|g gs IH]; intros acc Hl; [done|].
  rewrite fmap_cons, not_elem_of_cons in Hl. destruct Hl as [Hg Hgs].
  simpl. rewrite IH by done. unfold record_answer.
  destruct (answer_of dom g); [by rewrite lookup_assign_ne | done].
Qed.

Lemma foldl_record_answer_lookup dom fields acc field :
  NoDup (label <$> fields) → field ∈ fields →
  label field ≠ "__proto__" →
  foldl (record_answer dom) acc fields !! label field
  = match answer_of dom field with
    | Some a => Some a
    | None => acc !! label field
    end.
Proof.
  revert acc. induction fields as [|g gs IH]; intros acc Hnd Hin Hproto;
    [by apply elem_of_nil in Hin|].
  rewrite fmap_cons in Hnd. apply NoDup_cons in Hnd as [Hg Hgs].
  apply elem_of_cons in Hin as [-> | Hin]; simpl.
  - rewrite foldl_record_answer_other by done. unfold record_answer.
    destruct (answer_of dom g); [by rewrite lookup_assign | done].
  - rewrite IH by done. destruct (answer_of dom field); [done|].
    unfold record_answer. destruct (answer_of dom g); [|done].
    rewrite lookup_assign_ne; [done|]. intros E. apply Hg. rewrite E.
    by apply list_elem_of_fmap_2.
Qed.

(** X15. With pairwise distinct labels, none of them the name of a
    property of [Object.prototype], the record [submitForm] appends holds
    under each field's label: the value of the field's input for a text
    field; the value of the first checked option for a radio field, and
    nothing if none is checked; the values of all checked options, in
    document order, for a checkbox field. The table then ends with a row
    made of the new form id and, per field, that answer as text: the
    checkbox values joined with [", "], and a blank for a missing one. *)
Theorem submitForm_records_answers (now : N) (st : State) :
  formFields st ≠ [] →
  text_inputs_present (formFields st) (form st) →
  NoDup (label <$> formFields st) →
  Forall (λ field, Js.inherited_text (label field) = None) (formFields st) →
  ∃ (st' : State) (record : FormResponse) (t : Table),
    submitForm now st = Normal () st'
    ∧ formResponses st' = (formResponses st ++ [record])%list
    ∧ (∀ field, field ∈ formFields st →
         (type field = "text" →
          ∃ e, first_match (ById (id field)) (form st) = Some e
            ∧ responses record !! label field = Some (AStr (el_value e)))
         ∧ (type field = "radio" →
            responses record !! label field
            = (λ e, AStr (el_value e))
                <$> first_match (CheckedByName (id field)) (form st))
         ∧ (type field = "checkbox" →
            responses record !! label field
            = Some (AArr (el_value <$>
                filter (λ e, selects (CheckedByName (id field)) e = true)
                  (form st)))))
    ∧ response_review st' = Some t
    ∧ last (rows t)
      = Some (pretty now
              :: ((λ field, cell_text (responses record !! label field))
                    <$> formFields st))
    ∧ (∀ field, field ∈ formFields st → type field = "checkbox" →
         cell_text (responses record !! label field)
         = Js.join ", " (el_value <$>
             filter (λ e, selects (CheckedByName (id field)) e = true)
               (form st))).
Proof.
  intros Hne Hp Hnd Hplain. rewrite Forall_forall in Hplain.
  assert (Hlook : ∀ field, field ∈ formFields st →
            responses (submit_record now st) !! label field
            = answer_of (form st) field).
  { intros f Hf. simpl. rewrite foldl_record_answer_lookup; [|done..|].
    - rewrite lookup_empty. by destruct (answer_of _ _).
    - intros E. specialize (Hplain f Hf). by rewrite E in Hplain. }
  eexists _, (submit_record now st), _.
  split; [by apply submitForm_eq|].
  rewrite renderResponses_state_keep;
    [|done | simpl; by intros [? ?]%app_eq_nil].
  cbn [formResponses formFields response_review set_response_review
       submit_state set_localStorage set_formResponses].
  split; [done|]. split; [|split; [reflexivity|split]].
  - intros f Hf. rewrite (Hlook f Hf). unfold answer_of.
    split; [|split]; intros Ht; rewrite Ht; cbn [bool_decide decide_rel].
    + rewrite bool_decide_eq_true_2 by done.
      unfold text_inputs_present in Hp. rewrite Forall_forall in Hp.
      destruct (proj1 (has_input_find _ _) (Hp f Hf Ht)) as [e He].
      exists e. by rewrite He.
    + by rewrite bool_decide_eq_false_2, bool_decide_eq_true_2 by done.
    + by rewrite !bool_decide_eq_false_2, bool_decide_eq_true_2 by done.
  - cbn [rows render_table]. rewrite fmap_app, list_fmap_singleton, last_snoc.
    unfold render_row. f_equal. f_equal.
    apply list_fmap_ext. intros j f Hj.
    apply list_elem_of_lookup_2, Hplain in Hj.
    unfold response_cell. rewrite Hj.
    by destruct (responses (submit_record now st) !! label f).
  - intros f Hf Ht. rewrite (Hlook f Hf). unfold answer_of. rewrite Ht.
    by rewrite !bool_decide_eq_false_2, bool_decide_eq_true_2 by done.
Qed.

Lemma text_inputs_present_marks_only st st' :
  marks_only st st' →
  text_inputs_present (formFields st) (form st) →
  text_inputs_present (formFields st') (form st').
Proof.
  intros Hm Hp. pose proof (marks_only_frame _ _ Hm) as (-> & _).
  unfold text_inputs_present in *. eapply Forall_impl; [exact Hp|].
  intros f Hf Ht. by apply (has_input_marks_only _ _ _ Hm), Hf.
Qed.

(** X16. The submit click appends a record exactly when [validateForm]
    returns true: then one record with the new form id is appended; in
    every other case (it returns false, or it throws) the click changes
    nothing but error marks. *)
Theorem submit_form_click_appends_iff (b : Build) (now : N) (st : State) :
  formFields st ≠ [] →
  text_inputs_present (formFields st) (form st) →
  (∀ st1, validateForm b st = Normal true st1 →
     ∃ (st' : State) (record : FormResponse),
       submit_form_click b now st = Normal () st'
       ∧ formResponses st' = (formResponses st ++ [record])%list
       ∧ formId record = pretty now
       ∧ formFields st' = formFields st)
  ∧ ((∀ st1, validateForm b st ≠ Normal true st1) →
     ∃ st', final (submit_form_click b now st) = st'
       ∧ formResponses st' = formResponses st
       ∧ formFields st' = formFields st
       ∧ localStorage st' = localStorage st
       ∧ response_review st' = response_review st).
Proof.
  intros Hne Hp. split.
  - intros st1 Hv.
    pose proof (validateForm_returns _ _ _ _ Hv) as [_ Hm].
    pose proof (marks_only_frame _ _ Hm) as (Hf & Hr & _).
    assert (Hp1 := text_inputs_present_marks_only _ _ Hm Hp).
    eexists _, (submit_record now st1).
    split.
    { unfold submit_form_click. erewrite bind_Normal by exact Hv.
      by apply submitForm_eq. }
    rewrite renderResponses_state_keep;
      [|simpl; congruence | simpl; by intros [? ?]%app_eq_nil].
    simpl. by rewrite Hf, Hr.
  - intros Hnot. eexists. split; [reflexivity|].
    pose proof (submit_form_click_blocked b now st Hnot) as Hm.
    apply marks_only_frame in Hm as (? & ? & ? & ?). done.
Qed.

(** ** Loading a session *)

Lemma loadForms_with_eq forms resps st :
  loadForms_with forms resps st
  = Normal (renderForms forms)
      (renderResponses_state (load_state forms resps st)).
Proof.
  unfold loadForms_with. rewrite !bind_modify.
  assert (Hf : match forms with [] => [] | _ => forms end = forms)
    by (by destruct forms).
  assert (Hr : match resps with [] => [] | _ => resps end = resps)
    by (by destruct resps).
  rewrite Hf, Hr.
  change ((renderForm;; formList ← gets (λ st0, renderForms (formFields st0));
           renderResponses;; mret formList)
            (set_formResponses resps (set_formFields forms st)))
    with ((renderResponses;; mret (renderForms forms))
            (load_state forms resps st)).
  by erewrite bind_Normal by apply renderResponses_eq.
Qed.

Lemma loadForms_restores_run (fields : list FormField)
    (resps : list FormResponse) (st : State) :
  localStorage st !! "forms" = Some (SFields fields) →
  localStorage st !! "formResponses" = Some (SResponses resps) →
  fields ≠ [] → resps ≠ [] →
  ∃ st', loadForms st = Some (Normal (renderForms fields) st')
    ∧ formFields st' = fields
    ∧ formResponses st' = resps
    ∧ localStorage st' = localStorage st
    ∧ form st' = fields ≫= render_field
    ∧ response_review st' = Some (render_table fields resps).
Proof.
  intros Hf Hr Hfne Hrne. unfold loadForms. rewrite Hf, Hr. simpl.
  rewrite loadForms_with_eq. eexists. split; [reflexivity|].
  by rewrite renderResponses_state_keep.
Qed.

(** X17. When the store holds a non-empty field list and a non-empty
    response list, [loadForms] restores both, leaves the store as it is,
    and shows the preview, one line per field in the form list, and the
    response table. *)
Theorem loadForms_restores (fields : list FormField)
    (resps : list FormResponse) (st : State) :
  localStorage st !! "forms" = Some (SFields fields) →
  localStorage st !! "formResponses" = Some (SResponses resps) →
  fields ≠ [] → resps ≠ [] →
  ∃ st', loadForms st = Some (Normal (renderForms fields) st')
    ∧ formFields st' = fields
    ∧ formResponses st' = resps
    ∧ localStorage st' = localStorage st
    ∧ form st' = fields ≫= render_field
    ∧ response_review st' = Some (render_table fields resps).
Proof. apply loadForms_restores_run. Qed.

Lemma loadForms_resets_run (fields : list FormField)
    (resps : list FormResponse) (st : State) :
  parse_forms (localStorage st !! "forms") = Some fields →
  parse_formResponses (localStorage st !! "formResponses") = Some resps →
  fields = [] ∨ resps = [] →
  ∃ st', loadForms st = Some (Normal (renderForms fields) st')
    ∧ formFields st' = []
    ∧ formResponses st' = []
    ∧ localStorage st' = ∅
    ∧ response_review st' = None
    ∧ form st' = fields ≫= render_field.
Proof.
  intros Hf Hr Hempty. unfold loadForms. rewrite Hf, Hr. simpl.
  rewrite loadForms_with_eq. eexists. split; [reflexivity|].
  by rewrite renderResponses_state_reset.
Qed.

(** X18. When the stored field list or the stored response list is
    missing or empty, [loadForms] ends with both collections empty and the
    store erased, so fields that were saved without any response do not
    survive a load; the form list and the preview, drawn before the
    reset, still show the stored fields. *)
Theorem loadForms_resets (fields : list FormField)
    (resps : list FormResponse) (st : State) :
  parse_forms (localStorage st !! "forms") = Some fields →
  parse_formResponses (localStorage st !! "formResponses") = Some resps →
  fields = [] ∨ resps = [] →
  ∃ st', loadForms st = Some (Normal (renderForms fields) st')
    ∧ formFields st' = []
    ∧ formResponses st' = []
    ∧ localStorage st' = ∅
    ∧ response_review st' = None
    ∧ form st' = fields ≫= render_field.
Proof. apply loadForms_resets_run. Qed.

(** ** Invariants of the event loop *)

Lemma session_ok_reset st :
  session_ok
    (set_localStorage ∅
       (set_formFields [] (set_formResponses [] (set_response_review None st)))).
Proof.
  split.
  - done.
  - right. split; [apply lookup_empty | done].
  - right. split; [apply lookup_empty | done].
  - by constructor.
  - simpl. split; [by intros [? [=]] | done].
Qed.

Lemma session_ok_render st :
  forms_synced st → responses_synced st →
  text_inputs_present (formFields st) (form st) →
  session_ok (renderResponses_state st).
Proof.
  intros Hf Hr Hp.
  destruct (decide (formFields st = [])) as [Ef | Ef];
    [|destruct (decide (formResponses st = [])) as [Er | Er]].
  - rewrite renderResponses_state_reset by (by left). apply session_ok_reset.
  - rewrite renderResponses_state_reset by (by right). apply session_ok_reset.
  - rewrite renderResponses_state_keep by done.
    split; simpl; done.
Qed.

Lemma synced_rerender fields st :
  responses_synced st →
  forms_synced (rerender_fields (set_formFields fields st))
  ∧ responses_synced (rerender_fields (set_formFields fields st))
  ∧ text_inputs_present
      (formFields (rerender_fields (set_formFields fields st)))
      (form (rerender_fields (set_formFields fields st))).
Proof.
  intros Hr. split; [|split].
  - left. simpl. by rewrite lookup_insert_eq.
  - unfold responses_synced in *. simpl. by rewrite lookup_insert_ne.
  - apply rendered_text_inputs.
Qed.

Lemma session_ok_marks_only st st' :
  marks_only st st' → session_ok st → session_ok st'.
Proof.
  intros Hm [H1 H2 H3 H4 H5].
  pose proof (text_inputs_present_marks_only _ _ Hm H4) as H4'.
  pose proof (marks_only_frame _ _ Hm) as (Ef & Er & Es & Et).
  split.
  - by rewrite Ef, Er.
  - unfold forms_synced. by rewrite Ef, Es.
  - unfold responses_synced. by rewrite Er, Es.
  - done.
  - by rewrite Et, Er.
Qed.

Lemma has_input_id_same_controls i dom dom' :
  same_controls dom dom' →
  has_input (ById i) dom → has_input (ById i) dom'.
Proof.
  unfold has_input. intros Hs.
  induction Hs as [|e e' l l' (_ & He & _) _ IH]; [done|].
  rewrite !Exists_cons. simpl. rewrite He. tauto.
Qed.

Lemma session_ok_boot page store c :
  loadForms (boot page store) = Some c → session_ok (final c).
Proof.
  intros Hc. unfold loadForms in Hc.
  destruct (parse_forms _) as [forms|] eqn:Ef; [|done].
  destruct (parse_formResponses _) as [resps|] eqn:Er; [|done].
  cbn [mbind option_bind] in Hc. apply (inj Some) in Hc; subst c.
  rewrite loadForms_with_eq. cbn [final]. simpl in Ef, Er.
  destruct forms as [|f fs];
    [rewrite renderResponses_state_reset by (by left);
     apply session_ok_reset|].
  destruct resps as [|r rs];
    [rewrite renderResponses_state_reset by (by right);
     apply session_ok_reset|].
  apply session_ok_render.
  - left. simpl. destruct (store !! "forms") as [[l|[|? ?]]|];
      simpl in Ef; congruence.
  - left. simpl. destruct (store !! "formResponses") as [[[|? ?]|l]|];
      simpl in Er; congruence.
  - apply rendered_text_inputs.
Qed.

Lemma session_ok_handle b ev st st' :
  session_ok st → handle b ev st = Some st' → session_ok st'.
Proof.
  intros Hok Hev. pose proof Hok as [H1 H2 H3 H4 H5].
  destruct ev as [r now|now|i a|i|s|s|s|dom|page]; cbn [handle] in Hev.
  - apply (inj Some) in Hev; subst st'.
    destruct (isValidLabel (field_label st) st) eqn:Hv.
    + rewrite add_field_click_valid by done.
      destruct (synced_rerender
                  (formFields st ++ [new_field r now st]) st H3)
        as (Hf & Hr & Hp).
      split; simpl; try done. by intros _ [? ?]%app_eq_nil.
    + rewrite add_field_click_invalid by done. by split.
  - apply (inj Some) in Hev; subst st'. unfold submit_form_click.
    destruct (validateForm_run b st) as (st1 & Hm & Hrun).
    pose proof (session_ok_marks_only _ _ Hm Hok) as [G1 G2 G3 G4 G5].
    destruct (existsb _ _).
    + erewrite bind_TypeError by exact Hrun. by split.
    + erewrite bind_Normal by exact Hrun.
      destruct (forallb _ _); [|by split].
      rewrite submitForm_eq by done. simpl. apply session_ok_render.
      * unfold forms_synced in *. simpl. by rewrite lookup_insert_ne.
      * left. simpl. by rewrite lookup_insert_eq.
      * done.
  - apply (inj Some) in Hev; subst st'. unfold editField. rewrite bind_gets.
    destruct (list_find _ _) as [[n f]|]; [|done].
    destruct a as [l|]; [|done].
    rewrite bind_modify, save_render_eq, renderResponses_eq. simpl.
    destruct (synced_rerender (<[n := set_label l f]> (formFields st)) st H3)
      as (Hf & Hr & Hp).
    by apply session_ok_render.
  - apply (inj Some) in Hev; subst st'. rewrite deleteField_eq. simpl.
    destruct (synced_rerender
                (filter (λ field, id field ≠ i) (formFields st)) st H3)
      as (Hf & Hr & Hp).
    by apply session_ok_render.
  - apply (inj Some) in Hev; subst st'. by split.
  - apply (inj Some) in Hev; subst st'. by split.
  - apply (inj Some) in Hev; subst st'. by split.
  - case_bool_decide as Hs; [|done]. apply (inj Some) in Hev; subst st'.
    split; simpl; try done.
    unfold text_inputs_present in *. eapply Forall_impl; [exact H4|].
    intros f Hf Ht. by eapply has_input_id_same_controls, Hf.
  - apply fmap_Some in Hev as (c & Hc & ->). by eapply session_ok_boot.
Qed.

Lemma reachable_ok b st : reachable b st → session_ok st.
Proof.
  induction 1 as [page store c Hc | st ev st' _ IH Hev].
  - by eapply session_ok_boot.
  - by eapply session_ok_handle.
Qed.

(** X19. In every session a page can reach, the store mirrors the
    collections (each key holds the collection in memory, or is absent
    with the collection empty), responses exist only together with
    fields, and the response table is on the page exactly when responses
    exist. *)
Theorem reachable_session_invariants (b : Build) (st : State) :
  reachable b st →
  (localStorage st !! "forms" = Some (SFields (formFields st))
   ∨ (localStorage st !! "forms" = None ∧ formFields st = []))
  ∧ (localStorage st !! "formResponses"
     = Some (SResponses (formResponses st))
     ∨ (localStorage st !! "formResponses" = None ∧ formResponses st = []))
  ∧ (formResponses st ≠ [] → formFields st ≠ [])
  ∧ (is_Some (response_review st) ↔ formResponses st ≠ []).
Proof. intros [H1 H2 H3 _ H5]%reachable_ok. done. Qed.

(** X20. In every reachable session with at least one field,
    [submitForm] completes without a [TypeError] and appends exactly one
    record: each text field finds its input in the preview. *)
Theorem reachable_submitForm_returns (b : Build) (now : N) (st : State) :
  reachable b st →
  formFields st ≠ [] →
  ∃ (st' : State) (record : FormResponse),
    submitForm now st = Normal () st'
    ∧ formResponses st' = (formResponses st ++ [record])%list
    ∧ formFields st' = formFields st.
Proof.
  intros [_ _ _ Hp _]%reachable_ok Hne.
  eexists _, (submit_record now st).
  split; [by apply submitForm_eq|].
  rewrite renderResponses_state_keep;
    [done | done | simpl; by intros [? ?]%app_eq_nil].
Qed.

(** X21. Reloading the page in a reachable session that has responses
    restores the session: the same fields, the same responses and the
    same store. *)
Theorem reload_restores (b : Build) (page st : State) :
  reachable b st →
  formResponses st ≠ [] →
  ∃ st', handle b (Reload page) st = Some st'
    ∧ formFields st' = formFields st
    ∧ formResponses st' = formResponses st
    ∧ localStorage st' = localStorage st
    ∧ response_review st'
      = Some (render_table (formFields st) (formResponses st)).
Proof.
  intros [Hf Hs Hr _ _]%reachable_ok Hne.
  destruct Hs as [Hs | [_ Hs]]; [|by apply Hf in Hne].
  destruct Hr as [Hr | [_ Hr]]; [|done].
  destruct (loadForms_restores_run (formFields st) (formResponses st)
              (boot page (localStorage st))) as (st' & Hrun & Hrest);
    [done | done | by apply Hf | done |].
  exists st'. cbn [handle]. rewrite Hrun.
  destruct Hrest as (? & ? & ? & _ & ?). done.
Qed.

(** X22. Reloading the page in a reachable session without responses
    loses the fields: after the reload the field list, the response list
    and the store are empty. *)
Theorem reload_without_responses_resets (b : Build) (page st : State) :
  reachable b st →
  formResponses st = [] →
  ∃ st', handle b (Reload page) st = Some st'
    ∧ formFields st' = []
    ∧ formResponses st' = []
    ∧ localStorage st' = ∅
    ∧ form st' = formFields st ≫= render_field.
Proof.
  intros [_ Hs Hr _ _]%reachable_ok He.
  assert (Hpf : parse_forms (localStorage st !! "forms")
                = Some (formFields st)).
  { destruct Hs as [-> | [-> ->]]; done. }
  assert (Hpr : parse_formResponses (localStorage st !! "formResponses")
                = Some []).
  { destruct Hr as [-> | [-> _]]; [by rewrite He | done]. }
  destruct (loadForms_resets_run (formFields st) []
              (boot page (localStorage st))) as (st' & Hrun & Hrest);
    [done | done | by right |].
  exists st'. cbn [handle]. rewrite Hrun.
  destruct Hrest as (? & ? & ? & _ & ?). done.
Qed.

(** ** The error marks *)

Lemma classList_set_marks_as m input v st :
  marks_as m input st ((classList_set m input;; mret v) st).
Proof.
  intros v' st'. unfold mbind, M_bind, classList_set.
  destruct input as [n|]; [by intros [= _ <-] | done].
Qed.

Lemma classList_remove_marks_as b input v st :
  marks_as false input st ((classList_remove b input;; mret v) st).
Proof.
  destruct b, input as [n|]; try apply classList_set_marks_as.
  by intros v' st' [= _ <-].
Qed.

Lemma validate_field_marks_as b valid field st :
  marks_as (negb (field_passes (form st) field))
    (fst <$> list_find (λ e, selects (ById (id field)) e = true) (form st))
    st (validate_field b valid field st).
Proof.
  unfold validate_field, field_passes. rewrite bind_querySelector.
  set (input := fst <$> list_find _ (form st)).
  destruct (required field); cbn [negb orb];
    [|apply classList_remove_marks_as].
  destruct (bool_decide (type field = "text")) eqn:Et.
  - apply bool_decide_eq_true in Et.
    unfold mbind at 1, M_bind at 1. unfold mbind at 1, M_bind at 1.
    subst input. rewrite value_of_first_match.
    destruct (first_match _ _) as [e|]; [|by intros ?? [=]].
    unfold mret at 1, M_ret at 1. cbv beta iota.
    destruct (Js.truthy (el_value e)); cbn [negb].
    + erewrite bind_Normal by apply group_unselected_eq.
      rewrite Et. cbn [bool_decide andb].
      rewrite (bool_decide_eq_false_2 ("text" = "radio")) by done.
      cbn [andb].
      erewrite bind_Normal by apply group_unselected_eq.
      rewrite Et, (bool_decide_eq_false_2 ("text" = "checkbox")) by done.
      cbn [andb]. apply classList_remove_marks_as.
    + apply classList_set_marks_as.
  - unfold mbind at 1, M_bind at 1, mret at 1, M_ret at 1.
    erewrite bind_Normal by apply group_unselected_eq.
    destruct (bool_decide (type field = "radio")) eqn:Er; cbn [andb orb].
    + destruct (bool_decide (selected field (form st))); cbn [negb].
      * erewrite bind_Normal by apply group_unselected_eq.
        apply bool_decide_eq_true in Er. rewrite Er.
        rewrite (bool_decide_eq_false_2 ("radio" = "checkbox")) by done.
        cbn [andb]. apply classList_remove_marks_as.
      * apply classList_set_marks_as.
    + erewrite bind_Normal by apply group_unselected_eq.
      destruct (bool_decide (type field = "checkbox")); cbn [andb orb].
      * destruct (bool_decide (selected field (form st))); cbn [negb].
        -- apply classList_remove_marks_as.
        -- apply classList_set_marks_as.
      * apply classList_remove_marks_as.
Qed.

Lemma list_find_unmarked sel dom :
  fst <$> list_find (λ e, selects sel e = true) (unmarked dom)
  = fst <$> list_find (λ e, selects sel e = true) dom.
Proof.
  unfold unmarked. rewrite list_find_fmap, <- option_fmap_compose.
  erewrite (list_find_ext _ (λ e, selects sel e = true));
    [|intros e; simpl; by rewrite selects_unmarked].
  by destruct (list_find _ dom) as [[n e]|].
Qed.

Lemma list_find_marks_only sel st st' :
  marks_only st st' →
  fst <$> list_find (λ e, selects sel e = true) (form st')
  = fst <$> list_find (λ e, selects sel e = true) (form st).
Proof.
  intros [_ Hu]. by rewrite <- (list_find_unmarked sel (form st')), Hu,
    list_find_unmarked.
Qed.

Lemma forEach_validate_marks b fields valid st v st' :
  forEach (validate_field b) valid fields st = Normal v st' →
  NoDup (id <$> fields) →
  (∀ field n e, field ∈ fields →
     list_find (λ e, selects (ById (id field)) e = true) (form st)
     = Some (n, e) →
     el_error <$> form st' !! n
     = Some (negb (field_passes (form st) field)))
  ∧ (∀ n e, form st !! n = Some e →
       (∀ field, field ∈ fields → el_id e ≠ Some (id field)) →
       form st' !! n = Some e).
Proof.
  revert valid st. induction fields as [|g gs IH]; intros valid st Hrun Hnd.
  { injection Hrun as _ <-. split; [by intros ??? ?%elem_of_nil | done]. }
  rewrite fmap_cons in Hnd. apply NoDup_cons in Hnd as [Hg Hgs].
  cbn [forEach] in Hrun.
  pose proof (validate_field_marks_as b valid g st) as Hmark.
  destruct (validate_field_ends b valid g st) as [Hm _].
  unfold mbind, M_bind in Hrun.
  destruct (validate_field b valid g st) as [v1 st1|st1] eqn:Hg1; [|done].
  cbn [final] in Hm. specialize (Hmark v1 st1 eq_refl).
  destruct (IH v1 st1 Hrun Hgs) as [IH1 IH2]. clear IH.
  assert (Hother : ∀ n e, form st !! n = Some e →
            el_id e ≠ Some (id g) → form st1 !! n = Some e).
  { intros n e Hn Hid. rewrite Hmark. unfold mark_state.
    destruct (list_find _ (form st)) as [[m e0]|] eqn:Hfind; [|done].
    simpl. destruct (decide (m = n)) as [-> | Hmn];
      [|by rewrite list_lookup_alter_ne].
    apply list_find_Some in Hfind as (Hm0 & Hsel%bool_decide_eq_true & _).
    congruence. }
  split.
  - intros f n e Hf Hfind. apply elem_of_cons in Hf as [-> | Hf].
    + pose proof Hfind as (Hn & Hsel%bool_decide_eq_true & _)%list_find_Some.
      assert (Hn1 : form st1 !! n
                    = Some (set_el_error (negb (field_passes (form st) g)) e)).
      { rewrite Hmark, Hfind. simpl. by rewrite list_lookup_alter_eq, Hn. }
      rewrite (IH2 _ _ Hn1); [done|].
      intros f Hf. simpl. rewrite Hsel. intros [= E]. apply Hg.
      rewrite E. by apply list_elem_of_fmap_2.
    + pose proof Hfind as (Hn & Hsel%bool_decide_eq_true & _)%list_find_Some.
      assert (Hne : id f ≠ id g).
      { intros E. apply Hg. rewrite <- E. by apply list_elem_of_fmap_2. }
      pose proof (list_find_marks_only (ById (id f)) _ _ Hm) as Hidx.
      rewrite Hfind in Hidx. simpl in Hidx.
      destruct (list_find _ (form st1)) as [[n1 e1]|] eqn:Hfind1; [|done].
      injection Hidx as ->.
      rewrite (IH1 f n e1 Hf Hfind1).
      by rewrite (field_passes_marks_only _ _ _ Hm).
  - intros n e Hn Hid. apply IH2.
    + apply Hother; [done|]. apply Hid. by left.
    + intros f Hf. apply Hid. by right.
Qed.

(** X23. When [validateForm] returns on a field list with pairwise
    distinct ids, the error marks show its verdict field by field: the
    control that carries a field's id is marked exactly when that field
    fails the rule, and a control that carries no field's id is left as
    it was. *)
Theorem validateForm_marks (b : Build) (st : State) (v : bool) (st' : State) :
  validateForm b st = Normal v st' →
  NoDup (id <$> formFields st) →
  (∀ field n e, field ∈ formFields st →
     list_find (λ e, selects (ById (id field)) e = true) (form st)
     = Some (n, e) →
     el_error <$> form st' !! n
     = Some (negb (field_passes (form st) field)))
  ∧ (∀ n e, form st !! n = Some e →
       (∀ field, field ∈ formFields st → el_id e ≠ Some (id field)) →
       form st' !! n = Some e).
Proof.
  rewrite validateForm_eq. apply forEach_validate_marks.
Qed.

(** ** The options of an added field *)

Lemma chars_rev_app s acc :
  list_ascii_of_string (String.rev_app s acc)
  = rev_append (list_ascii_of_string s) (list_ascii_of_string acc).
Proof.
  revert acc. induction s as [|c s IH]; intros acc; [done|].
  simpl. by rewrite IH.
Qed.

Lemma chars_rev s :
  list_ascii_of_string (String.rev s) = reverse (list_ascii_of_string s).
Proof. apply chars_rev_app. Qed.

Lemma string_rev_involutive s : String.rev (String.rev s) = s.
Proof.
  rewrite <- (string_of_list_ascii_of_string (String.rev (String.rev s))).
  rewrite !chars_rev, reverse_involutive.
  apply string_of_list_ascii_of_string.
Qed.

Lemma trimStart_suffix s :
  list_ascii_of_string (Js.trimStart s) `suffix_of` list_ascii_of_string s.
Proof.
  induction s as [|c s IH]; simpl; [done|].
  destruct (Ascii.is_space c); [by apply suffix_cons_r | done].
Qed.

Lemma trimStart_head s c rest :
  Js.trimStart s = String c rest → Ascii.is_space c = false.
Proof.
  induction s as [|d s IH]; simpl; [done|].
  destruct (Ascii.is_space d) eqn:Ed; [done|]. by intros [= <- _].
Qed.

Lemma trim_chars_subset s c :
  c ∈ list_ascii_of_string (Js.trim s) → c ∈ list_ascii_of_string s.
Proof.
  unfold Js.trim. rewrite chars_rev, elem_of_reverse. intros Hc.
  eapply elem_of_suffix in Hc; [|apply trimStart_suffix].
  rewrite chars_rev, elem_of_reverse in Hc.
  by eapply elem_of_suffix; [|apply trimStart_suffix].
Qed.

Lemma trim_last s c rest :
  String.rev (Js.trim s) = String c rest → Ascii.is_space c = false.
Proof.
  unfold Js.trim. rewrite string_rev_involutive. apply trimStart_head.
Qed.

Lemma trim_head s c rest :
  Js.trim s = String c rest → Ascii.is_space c = false.
Proof.
  unfold Js.trim. intros Ht.
  apply (f_equal list_ascii_of_string) in Ht.
  rewrite chars_rev in Ht. simpl in Ht.
  assert (Hlast : last (list_ascii_of_string
                          (Js.trimStart (String.rev (Js.trimStart s))))
                  = Some c).
  { by rewrite <- head_reverse, Ht. }
  destruct (trimStart_suffix (String.rev (Js.trimStart s))) as [k Hk].
  rewrite chars_rev in Hk.
  assert (Hhead : head (list_ascii_of_string (Js.trimStart s)) = Some c).
  { rewrite <- last_reverse, Hk, last_app, Hlast. done. }
  destruct (Js.trimStart s) as [|d t] eqn:Et; [done|].
  injection Hhead as ->. by eapply trimStart_head.
Qed.

Lemma split_go_length sep cur s :
  length (Js.split_go sep cur s)
  = S (length (filter (λ c, c = sep) (list_ascii_of_string s))).
Proof.
  revert cur. induction s as [|c s IH]; intros cur; simpl; [done|].
  destruct (Ascii.eqb_spec c sep) as [-> | Hne].
  - rewrite filter_cons_True by done. simpl. by rewrite IH.
  - rewrite filter_cons_False by done. apply IH.
Qed.

Lemma split_go_no_sep sep cur s part :
  sep ∉ list_ascii_of_string cur →
  part ∈ Js.split_go sep cur s →
  sep ∉ list_ascii_of_string part.
Proof.
  revert cur. induction s as [|c s IH]; intros cur Hcur; simpl.
  - intros ->%list_elem_of_singleton. by rewrite chars_rev, elem_of_reverse.
  - destruct (Ascii.eqb_spec c sep) as [-> | Hne].
    + intros [-> | Hin]%elem_of_cons.
      * by rewrite chars_rev, elem_of_reverse.
      * eapply IH; [|exact Hin]. simpl. apply not_elem_of_nil.
    + apply IH. simpl. rewrite not_elem_of_cons. split; [congruence | done].
Qed.

(** X24. The options of an added radio or checkbox field are the options
    input cut at its commas: there is one more option than there are
    commas, no option contains a comma, and no option begins or ends with
    white space. *)
Theorem added_options_trimmed (required0 : bool) (now : N) (st : State) :
  isValidLabel (field_label st) st = true →
  field_type st = "radio" ∨ field_type st = "checkbox" →
  ∃ (st' : State) (field : FormField) (opts : list string),
    add_field_click required0 now st = Normal () st'
    ∧ last (formFields st') = Some field
    ∧ options field = Some opts
    ∧ length opts
      = S (length (filter (λ c, c = ","%char)
                     (list_ascii_of_string (field_options_input st))))
    ∧ ∀ opt, opt ∈ opts →
        (","%char ∉ list_ascii_of_string opt)
        ∧ (∀ c rest, opt = String c rest → Ascii.is_space c = false)
        ∧ (∀ c rest, String.rev opt = String c rest →
             Ascii.is_space c = false).
Proof.
  intros Hv Ht.
  exists (add_state required0 now st), (new_field required0 now st),
    (Js.trim <$> Js.split "," (field_options_input st)).
  split; [by apply add_field_click_valid|].
  split; [simpl; apply last_snoc|].
  split.
  { simpl. by destruct Ht as [-> | ->]. }
  split; [by rewrite length_fmap; apply split_go_length|].
  intros opt (part & -> & Hpart)%list_elem_of_fmap.
  split; [|split].
  - intros Hc%trim_chars_subset. revert Hc.
    eapply split_go_no_sep; [|exact Hpart]. apply not_elem_of_nil.
  - apply trim_head.
  - apply trim_last.
Qed.

(** ** Instances of the further properties *)

Lemma shows_st_filled : shows (formFields st_filled) (form st_filled).
Proof. unfold shows. apply (bool_decide_unpack _). by vm_compute. Qed.

Lemma reachable_one_field b : reachable b st_one_field.
Proof.
  apply (reachable_step b (set_field_label "Name" blank_page)
           (ClickAddField true 1)).
  - apply (reachable_step b blank_page (InputLabel "Name")); [|done].
    apply (reachable_boot b blank_page ∅ (Normal [] blank_page)).
    vm_compute. reflexivity.
  - vm_compute. reflexivity.
Qed.

Lemma reachable_stored_session b : reachable b (session [name_field] [alice]).
Proof.
  apply (reachable_boot b blank_page stored_session
           (Normal ["Form with Name"] (session [name_field] [alice]))).
  vm_compute. reflexivity.
Qed.

Lemma submit_click_TypeScript_throws_witness :
  shows (formFields st_filled) (form st_filled)
  ∧ color_field ∈ formFields st_filled
  ∧ (∀ g, g ∈ formFields st_filled → type g = "text" →
       id g ≠ id color_field)
  ∧ ∃ st', submit_form_click TypeScript 9 st_filled = TypeError st'
      ∧ formResponses st' = formResponses st_filled.
Proof.
  assert (Hin : color_field ∈ formFields st_filled)
    by (right; left).
  assert (Hid : ∀ g, g ∈ formFields st_filled → type g = "text" →
                  id g ≠ id color_field).
  { apply (Forall_forall (λ g, type g = "text" → id g ≠ id color_field)).
    apply (bool_decide_unpack _). by vm_compute. }
  split; [exact shows_st_filled|]. split; [exact Hin|]. split; [exact Hid|].
  destruct (submit_click_TypeScript_throws 9 st_filled color_field
              shows_st_filled Hin Hid) as (st' & Hrun & _ & Hr & _).
  by exists st'.
Defined.

Lemma submit_click_ScriptJs_unselected_throws_witness :
  shows (formFields (added [color_field])) (form (added [color_field]))
  ∧ required color_field = true
  ∧ ¬ selected color_field (form (added [color_field]))
  ∧ ∃ st', submit_form_click ScriptJs 9 (added [color_field]) = TypeError st'
      ∧ formResponses st' = [].
Proof.
  assert (Hsel : ¬ selected color_field (form (added [color_field]))).
  { unfold selected, has_input. apply (bool_decide_eq_false_1 _).
    by vm_compute. }
  split; [apply shows_rendered|]. split; [done|]. split; [exact Hsel|].
  destruct (submit_click_ScriptJs_unselected_throws 9 (added [color_field])
              color_field) as (st' & Hrun & _ & Hr & _);
    [apply shows_rendered | by left | done | by left | exact Hsel | |].
  - intros g ->%list_elem_of_singleton. done.
  - by exists st'.
Defined.

Lemma validateForm_ScriptJs_returns_witness :
  shows (formFields st_filled) (form st_filled)
  ∧ (∀ field, field ∈ formFields st_filled → required field = true →
       type field = "radio" ∨ type field = "checkbox" →
       selected field (form st_filled))
  ∧ ∃ st', validateForm ScriptJs st_filled = Normal true st'.
Proof.
  assert (Hsel : ∀ field, field ∈ formFields st_filled →
            required field = true →
            type field = "radio" ∨ type field = "checkbox" →
            selected field (form st_filled)).
  { unfold selected, has_input.
    apply (Forall_forall (λ field, required field = true →
             type field = "radio" ∨ type field = "checkbox" →
             Exists (λ e, selects (CheckedByName (id field)) e = true)
               (form st_filled))).
    apply (bool_decide_unpack _). by vm_compute. }
  split; [exact shows_st_filled|]. split; [exact Hsel|].
  destruct (validateForm_ScriptJs_returns st_filled shows_st_filled Hsel)
    as (st' & Hrun & _).
  exists st'. exact Hrun.
Defined.

Lemma validateForm_text_only_returns_witness :
  (∀ field, field ∈ formFields st_name_typed → type field = "text")
  ∧ text_inputs_present (formFields st_name_typed) (form st_name_typed)
  ∧ ∃ st', validateForm TypeScript st_name_typed = Normal true st'.
Proof.
  assert (Ht : ∀ field, field ∈ formFields st_name_typed →
                 type field = "text").
  { intros f ->%list_elem_of_singleton. done. }
  assert (Hp : text_inputs_present (formFields st_name_typed)
                 (form st_name_typed)).
  { unfold text_inputs_present, has_input.
    apply (bool_decide_unpack _). by vm_compute. }
  split; [exact Ht|]. split; [exact Hp|].
  destruct (validateForm_text_only_returns TypeScript st_name_typed Ht Hp)
    as (st' & Hrun & _).
  exists st'. exact Hrun.
Defined.

Lemma add_field_click_adds_witness :
  isValidLabel (field_label st_adding_radio) st_adding_radio = true
  ∧ ∃ (st' : State) (field : FormField),
      add_field_click false 9 st_adding_radio = Normal () st'
      ∧ formFields st' = [name_field; field]
      ∧ id field = "radio-9" ∧ label field = "Color"
      ∧ formResponses st' = [] ∧ field_label st' = "".
Proof.
  split; [reflexivity|].
  destruct (add_field_click_adds false 9 st_adding_radio eq_refl)
    as (st' & f & Hrun & Hf & Hid & _ & Hl & _ & _ & _ & _ & Hr & _ & Hfl & _).
  exists st', f. split; [exact Hrun|]. split; [exact Hf|].
  split; [rewrite Hid; by vm_compute|]. done.
Defined.

Lemma add_field_click_keeps_labels_valid_witness :
  labels_valid (formFields st_adding_radio)
  ∧ labels_valid (formFields (final (add_field_click false 9 st_adding_radio))).
Proof.
  assert (Hl : labels_valid (formFields st_adding_radio)).
  { split; apply (bool_decide_unpack _); by vm_compute. }
  split; [exact Hl|].
  exact (add_field_click_keeps_labels_valid false 9 st_adding_radio Hl).
Defined.

Lemma options_shown_iff_stored_witness :
  isValidLabel (field_label st_adding_radio) st_adding_radio = true
  ∧ ∃ (st' : State) (field : FormField),
      add_field_click false 9 st_adding_radio = Normal () st'
      ∧ last (formFields st') = Some field
      ∧ (field_type_change (field_type st_adding_radio) = false
         ↔ is_Some (options field)).
Proof.
  split; [reflexivity|].
  exact (options_shown_iff_stored false 9 st_adding_radio eq_refl).
Defined.

Lemma deleteField_without_responses_witness :
  formResponses (added [name_field; email_field]) = []
  ∧ ∃ st', deleteField "text-1" (added [name_field; email_field])
           = Normal () st'
      ∧ formFields st' = [] ∧ localStorage st' = ∅
      ∧ form st' = [email_field] ≫= render_field.
Proof.
  split; [reflexivity|].
  destruct (deleteField_without_responses "text-1"
              (added [name_field; email_field]) eq_refl)
    as (st' & Hrun & Hf & Hs & _ & Hform).
  exists st'. split; [exact Hrun|]. split; [exact Hf|]. split; [exact Hs|].
  rewrite Hform. reflexivity.
Defined.

Lemma editField_without_responses_witness :
  list_find (λ f, id f = "text-1") (formFields st_one_field)
  = Some (0, name_field)
  ∧ formResponses st_one_field = []
  ∧ ∃ st', editField "text-1" (Some "FullName") st_one_field = Normal () st'
      ∧ formFields st' = [] ∧ localStorage st' = ∅.
Proof.
  split; [reflexivity|]. split; [reflexivity|].
  destruct (editField_without_responses "text-1" "FullName" 0 name_field
              st_one_field eq_refl eq_refl)
    as (st' & Hrun & Hf & Hs & _).
  by exists st'.
Defined.

Lemma editField_renames_only_witness :
  list_find (λ f, id f = "text-2") (formFields st_two_fields_one_response)
  = Some (1, email_field)
  ∧ formResponses st_two_fields_one_response ≠ []
  ∧ ∃ st', editField "text-2" (Some "Mail") st_two_fields_one_response
           = Normal () st'
      ∧ formFields st' = [name_field; set_label "Mail" email_field]
      ∧ formResponses st' = [alice].
Proof.
  split; [reflexivity|]. split; [discriminate|].
  destruct (editField_renames_only "text-2" "Mail" 1 email_field
              st_two_fields_one_response eq_refl)
    as (st' & Hrun & Hf & _ & _ & _ & _ & _ & _ & Hr & _); [discriminate|].
  by exists st'.
Defined.

Lemma text_inputs_st_filled :
  text_inputs_present (formFields st_filled) (form st_filled).
Proof.
  unfold text_inputs_present, has_input.
  apply (bool_decide_unpack _). by vm_compute.
Qed.

Lemma submitForm_records_answers_witness :
  formFields st_both_ticked ≠ []
  ∧ text_inputs_present (formFields st_both_ticked) (form st_both_ticked)
  ∧ NoDup (label <$> formFields st_both_ticked)
  ∧ Forall (λ field, Js.inherited_text (label field) = None)
      (formFields st_both_ticked)
  ∧ ∃ (st' : State) (record : FormResponse) (t : Table),
      submitForm 9 st_both_ticked = Normal () st'
      ∧ formResponses st' = [record]
      ∧ response_review st' = Some t
      ∧ last (rows t) = Some ["9"; "Alice"; "Blue"; "Chess, Go"]
      ∧ cell_text (responses record !! "Hobbies") = "Chess, Go".
Proof.
  assert (Hp : text_inputs_present (formFields st_both_ticked)
                 (form st_both_ticked)).
  { unfold text_inputs_present, has_input.
    apply (bool_decide_unpack _). by vm_compute. }
  assert (Hnd : NoDup (label <$> formFields st_both_ticked)).
  { apply (bool_decide_unpack _). by vm_compute. }
  assert (Hplain : Forall (λ field, Js.inherited_text (label field) = None)
                     (formFields st_both_ticked)).
  { apply (bool_decide_unpack _). by vm_compute. }
  split; [discriminate|]. split; [exact Hp|]. split; [exact Hnd|].
  split; [exact Hplain|].
  destruct (submitForm_records_answers 9 st_both_ticked)
    as (st' & record & t & Hrun & Hr & Hvals & Ht & Hrow & Hcell);
    [discriminate | exact Hp | exact Hnd | exact Hplain |].
  exists st', record, t. split; [exact Hrun|]. split; [exact Hr|].
  split; [exact Ht|].
  assert (Hh : cell_text (responses record !! "Hobbies") = "Chess, Go").
  { change (cell_text (responses record !! label hobbies_field)
            = "Chess, Go").
    rewrite (Hcell hobbies_field ltac:(right; right; left) eq_refl).
    by vm_compute. }
  split; [|exact Hh].
  destruct (Hvals name_field ltac:(left)) as [Hname _].
  destruct (Hname eq_refl) as (e & He & Hn).
  vm_compute in He. injection He as <-. cbn [el_value] in Hn.
  destruct (Hvals color_field ltac:(right; left)) as (_ & Hc & _).
  specialize (Hc eq_refl).
  assert (Hc' : responses record !! label color_field = Some (AStr "Blue"))
    by (rewrite Hc; by vm_compute).
  rewrite Hrow.
  change (formFields st_both_ticked)
    with [name_field; color_field; hobbies_field].
  cbn [fmap list_fmap]. rewrite Hn, Hc'.
  change (label hobbies_field) with "Hobbies". rewrite Hh.
  by vm_compute.
Defined.

Lemma submit_form_click_appends_iff_witness :
  formFields st_name_typed ≠ []
  ∧ text_inputs_present (formFields st_name_typed) (form st_name_typed)
  ∧ validateForm ScriptJs st_name_typed = Normal true st_name_typed
  ∧ ∃ (st' : State) (record : FormResponse),
      submit_form_click ScriptJs 9 st_name_typed = Normal () st'
      ∧ formResponses st' = [record]
      ∧ formId record = "9".
Proof.
  assert (Hp : text_inputs_present (formFields st_name_typed)
                 (form st_name_typed)).
  { unfold text_inputs_present, has_input.
    apply (bool_decide_unpack _). by vm_compute. }
  assert (Hv : validateForm ScriptJs st_name_typed
               = Normal true st_name_typed) by (vm_compute; reflexivity).
  split; [discriminate|]. split; [exact Hp|]. split; [exact Hv|].
  destruct (submit_form_click_appends_iff ScriptJs 9 st_name_typed)
    as [Happ _]; [discriminate | exact Hp |].
  destruct (Happ st_name_typed Hv) as (st' & record & Hrun & Hr & Hid & _).
  exists st', record. split; [exact Hrun|]. split; [exact Hr|].
  rewrite Hid. by vm_compute.
Defined.

Lemma loadForms_restores_witness :
  localStorage (boot blank_page stored_session) !! "forms"
  = Some (SFields [name_field])
  ∧ localStorage (boot blank_page stored_session) !! "formResponses"
    = Some (SResponses [alice])
  ∧ ∃ st', loadForms (boot blank_page stored_session)
           = Some (Normal ["Form with Name"] st')
      ∧ formFields st' = [name_field]
      ∧ formResponses st' = [alice]
      ∧ localStorage st' = stored_session.
Proof.
  assert (Hf : localStorage (boot blank_page stored_session) !! "forms"
               = Some (SFields [name_field])) by (by vm_compute).
  assert (Hr : localStorage (boot blank_page stored_session)
                 !! "formResponses"
               = Some (SResponses [alice])) by (by vm_compute).
  split; [exact Hf|]. split; [exact Hr|].
  destruct (loadForms_restores [name_field] [alice]
              (boot blank_page stored_session) Hf Hr)
    as (st' & Hrun & Hfs & Hrs & Hs & _); [discriminate..|].
  exists st'. split; [exact Hrun|]. done.
Defined.

Lemma loadForms_resets_witness :
  parse_forms (localStorage st_one_field !! "forms") = Some [name_field]
  ∧ parse_formResponses (localStorage st_one_field !! "formResponses")
    = Some []
  ∧ ∃ st', loadForms st_one_field = Some (Normal ["Form with Name"] st')
      ∧ formFields st' = []
      ∧ localStorage st' = ∅.
Proof.
  assert (Hf : parse_forms (localStorage st_one_field !! "forms")
               = Some [name_field]) by (by vm_compute).
  assert (Hr : parse_formResponses
                 (localStorage st_one_field !! "formResponses")
               = Some []) by (by vm_compute).
  split; [exact Hf|]. split; [exact Hr|].
  destruct (loadForms_resets [name_field] [] st_one_field Hf Hr)
    as (st' & Hrun & Hfs & _ & Hs & _); [by right|].
  exists st'. split; [exact Hrun|]. done.
Defined.

Lemma reachable_session_invariants_witness :
  reachable ScriptJs st_one_field
  ∧ localStorage st_one_field !! "forms"
    = Some (SFields (formFields st_one_field))
  ∧ (is_Some (response_review st_one_field)
     ↔ formResponses st_one_field ≠ []).
Proof.
  split; [apply reachable_one_field|].
  destruct (reachable_session_invariants ScriptJs st_one_field
              (reachable_one_field ScriptJs)) as (Hf & _ & _ & Ht).
  split; [|exact Ht].
  destruct Hf as [Hf | [_ Hf]]; [exact Hf | discriminate Hf].
Defined.

Lemma reachable_submitForm_returns_witness :
  reachable TypeScript st_one_field
  ∧ formFields st_one_field ≠ []
  ∧ ∃ (st' : State) (record : FormResponse),
      submitForm 9 st_one_field = Normal () st'
      ∧ formResponses st' = [record].
Proof.
  split; [apply reachable_one_field|]. split; [discriminate|].
  destruct (reachable_submitForm_returns TypeScript 9 st_one_field
              (reachable_one_field TypeScript))
    as (st' & record & Hrun & Hr & _); [discriminate|].
  by exists st', record.
Defined.

Lemma reload_restores_witness :
  reachable ScriptJs (session [name_field] [alice])
  ∧ formResponses (session [name_field] [alice]) ≠ []
  ∧ ∃ st', handle ScriptJs (Reload blank_page) (session [name_field] [alice])
           = Some st'
      ∧ formFields st' = [name_field]
      ∧ formResponses st' = [alice].
Proof.
  split; [apply reachable_stored_session|]. split; [discriminate|].
  destruct (reload_restores ScriptJs blank_page (session [name_field] [alice])
              (reachable_stored_session ScriptJs))
    as (st' & Hrun & Hf & Hr & _); [discriminate|].
  by exists st'.
Defined.

Lemma reload_without_responses_resets_witness :
  reachable ScriptJs st_one_field
  ∧ formResponses st_one_field = []
  ∧ formFields st_one_field = [name_field]
  ∧ ∃ st', handle ScriptJs (Reload blank_page) st_one_field = Some st'
      ∧ formFields st' = []
      ∧ localStorage st' = ∅.
Proof.
  split; [apply reachable_one_field|]. split; [reflexivity|].
  split; [reflexivity|].
  destruct (reload_without_responses_resets ScriptJs blank_page st_one_field
              (reachable_one_field ScriptJs) eq_refl)
    as (st' & Hrun & Hf & _ & Hs & _).
  by exists st'.
Defined.

Lemma validateForm_marks_witness :
  (∃ st', validateForm ScriptJs (added [name_field; email_field])
          = Normal false st'
     ∧ el_error <$> form st' !! 0 = Some true
     ∧ el_error <$> form st' !! 1 = Some false)
  ∧ NoDup (id <$> formFields (added [name_field; email_field])).
Proof.
  assert (Hnd : NoDup (id <$> formFields (added [name_field; email_field]))).
  { apply (bool_decide_unpack _). by vm_compute. }
  split; [|exact Hnd].
  destruct (validateForm ScriptJs (added [name_field; email_field]))
    as [v st'|st'] eqn:Hrun; [|by vm_compute in Hrun].
  assert (Hv : v = false).
  { vm_compute in Hrun. by injection Hrun as <- _. }
  subst v. exists st'. split; [reflexivity|].
  destruct (validateForm_marks ScriptJs (added [name_field; email_field])
              false st' Hrun Hnd) as [Hmarks _].
  split.
  - rewrite (Hmarks name_field 0
               (mkInput "text" (Some "text-1") None "" false false));
      [by vm_compute | by left | by vm_compute].
  - rewrite (Hmarks email_field 1
               (mkInput "text" (Some "text-2") None "" false false));
      [by vm_compute | by right; left | by vm_compute].
Defined.

Lemma added_options_trimmed_witness :
  isValidLabel (field_label st_adding_radio) st_adding_radio = true
  ∧ (field_type st_adding_radio = "radio"
     ∨ field_type st_adding_radio = "checkbox")
  ∧ ∃ (st' : State) (field : FormField) (opts : list string),
      add_field_click false 9 st_adding_radio = Normal () st'
      ∧ options field = Some opts
      ∧ length opts = 1.
Proof.
  split; [reflexivity|]. split; [by left|].
  destruct (added_options_trimmed false 9 st_adding_radio eq_refl)
    as (st' & f & opts & Hrun & _ & Ho & Hlen & _); [by left|].
  by exists st', f, opts.
Defined.
